(** * Smart-Video-analyst-app: the Gemini service pipeline and the chat panel

    A shallow embedding of [services/geminiService.ts] (upload / poll /
    analyse / chat / research / image analysis), of the message construction
    of [components/ChatInterface.tsx] and of the types of [types.ts],
    followed by the properties of the pipeline's result and error contract.
    The keyboard handler of the panel and the upload handler and screens of
    [App.tsx] are embedded after the service, with further properties of
    the code at the end of the file.

    Conventions of the embedding.
    - A JavaScript string is a sequence of UTF-16 code units: [jsstring] is
      [list N], one element per code unit.  "Character" always means code
      unit, as for [String.prototype.substring] and [length].
    - An optional property ([x?: T], or a property the remote service may
      leave out) is an [option]; [None] is JavaScript's [undefined].
    - The remote service is scripted: what [ai.files.upload], each successive
      [ai.files.get], [ai.models.generateContent] and [chat.sendMessage]
      answer is part of the [World] an operation runs in.
    - Every operation is a computation in [M]: it yields the list of
      observable events it performed (progress callbacks, waits, remote
      requests, console output) and an [outcome]. *)

From Stdlib Require Import String Ascii.
From Stdlib Require Import List NArith ZArith Lia Bool.
From Stdlib Require DecimalN.
Import ListNotations.

Set Warnings "-register-all".

(* ================================================================== *)
(** ** JavaScript strings *)

Module JsString.

Definition code_unit := N.
Definition jsstring := list code_unit.

(** The code unit of an ASCII character, and the string of a literal of the
    source text. *)
Definition ch (c : ascii) : code_unit := N_of_ascii c.

Fixpoint lit (s : string) : jsstring :=
  match s with
  | EmptyString => []
  | String c r => ch c :: lit r
  end.

(** The same, with each apostrophe of the literal standing for a double
    quote: used to write JSON texts. *)
Definition json_lit (s : string) : jsstring :=
  map (fun c => if N.eqb c 39 then 34%N else c) (lit s).

Fixpoint eqb (a b : jsstring) : bool :=
  match a, b with
  | [], [] => true
  | x :: a', y :: b' => N.eqb x y && eqb a' b'
  | _, _ => false
  end.

(** [ToBoolean] of a value that is a string or [undefined]: only the empty
    string and [undefined] are falsy. *)
Definition truthy (o : option jsstring) : bool :=
  match o with
  | Some (_ :: _) => true
  | _ => false
  end.

(** [a || b] where [a] is a string or [undefined]. *)
Definition or_else (a : option jsstring) (b : jsstring) : jsstring :=
  match a with
  | Some (c :: r) => c :: r
  | _ => b
  end.

(** [s.substring(start, end)]: both indices are clamped to [0, s.length]
    and swapped when [start > end]. *)
Definition clamp (len : nat) (i : Z) : nat :=
  Nat.min (Z.to_nat i) len.

Definition substring (s : jsstring) (start end_ : Z) : jsstring :=
  let a := clamp (length s) start in
  let b := clamp (length s) end_ in
  let from := Nat.min a b in
  let to := Nat.max a b in
  firstn (to - from) (skipn from s).

(** [needle] occurs in [s] as a contiguous run of characters. *)
Definition occurs_in (needle s : jsstring) : Prop :=
  exists before after, s = before ++ needle ++ after.

End JsString.
Import JsString.

(* ================================================================== *)
(** ** JSON values and [JSON.parse] *)

Module Json.

(** The value [JSON.parse] builds.  A number keeps its source text: the
    IEEE-754 double it denotes plays no role in the application code.  An
    object is the list of its own properties in creation order. *)
Inductive value :=
| JNull
| JBool (b : bool)
| JNumber (lexeme : jsstring)
| JString (s : jsstring)
| JArray (elements : list value)
| JObject (members : list (jsstring * value)).

(** [CreateDataProperty]: a repeated key overwrites the earlier value and
    keeps its place. *)
Fixpoint set_prop (k : jsstring) (v : value) (ms : list (jsstring * value))
  : list (jsstring * value) :=
  match ms with
  | [] => [(k, v)]
  | (k', v') :: rest =>
      if JsString.eqb k k' then (k', v) :: rest else (k', v') :: set_prop k v rest
  end.

Fixpoint lookup (k : jsstring) (ms : list (jsstring * value)) : option value :=
  match ms with
  | [] => None
  | (k', v') :: rest => if JsString.eqb k k' then Some v' else lookup k rest
  end.

(** [v.k] for a parsed payload: the own property, else [undefined]. *)
Definition get_prop (k : jsstring) (v : value) : option value :=
  match v with
  | JObject ms => lookup k ms
  | _ => None
  end.

Inductive parsed (A : Type) :=
| Parsed (a : A) (rest : jsstring)
| SyntaxError
| OutOfFuel.
Arguments Parsed {A} a rest.
Arguments SyntaxError {A}.
Arguments OutOfFuel {A}.

Definition is_char (a : ascii) (c : code_unit) : bool := N.eqb c (ch a).

(** The double quote, U+0022. *)
Definition quote : code_unit := 34%N.
Definition is_quote (c : code_unit) : bool := N.eqb c quote.

(** JSON white space: TAB, LF, CR, SP. *)
Definition is_ws (c : code_unit) : bool :=
  N.eqb c 9 || N.eqb c 10 || N.eqb c 13 || N.eqb c 32.

Fixpoint skip_ws (s : jsstring) : jsstring :=
  match s with
  | c :: r => if is_ws c then skip_ws r else s
  | [] => []
  end.

Definition is_digit (c : code_unit) : bool := N.leb 48 c && N.leb c 57.

Fixpoint take_digits (s : jsstring) : jsstring * jsstring :=
  match s with
  | c :: r =>
      if is_digit c then let (ds, r') := take_digits r in (c :: ds, r')
      else ([], s)
  | [] => ([], [])
  end.

Fixpoint strip_prefix (p s : jsstring) : option jsstring :=
  match p, s with
  | [], _ => Some s
  | x :: p', y :: s' => if N.eqb x y then strip_prefix p' s' else None
  | _ :: _, [] => None
  end.

Definition hex_value (c : code_unit) : option N :=
  if is_digit c then Some (c - 48)%N
  else if N.leb 97 c && N.leb c 102 then Some (c - 87)%N
  else if N.leb 65 c && N.leb c 70 then Some (c - 55)%N
  else None.

Definition hex4 (a b c d : code_unit) : option code_unit :=
  match hex_value a, hex_value b, hex_value c, hex_value d with
  | Some x, Some y, Some z, Some w => Some (((x * 16 + y) * 16 + z) * 16 + w)%N
  | _, _, _, _ => None
  end.

Definition simple_escape (e : code_unit) : option code_unit :=
  if is_quote e then Some quote
  else if is_char "\" e then Some (ch "\")
  else if is_char "/" e then Some (ch "/")
  else if is_char "b" e then Some 8%N
  else if is_char "f" e then Some 12%N
  else if is_char "n" e then Some 10%N
  else if is_char "r" e then Some 13%N
  else if is_char "t" e then Some 9%N
  else None.

(** The characters of a string after its opening quote, up to and
    including the closing quote. *)
Fixpoint parse_chars (s : jsstring) : option (jsstring * jsstring) :=
  match s with
  | [] => None
  | c :: r =>
      if is_quote c then Some ([], r)
      else if is_char "\" c then
        match r with
        | [] => None
        | e :: r1 =>
            match simple_escape e with
            | Some x =>
                match parse_chars r1 with
                | Some (str, rest) => Some (x :: str, rest)
                | None => None
                end
            | None =>
                if is_char "u" e then
                  match r1 with
                  | h1 :: h2 :: h3 :: h4 :: r2 =>
                      match hex4 h1 h2 h3 h4 with
                      | Some x =>
                          match parse_chars r2 with
                          | Some (str, rest) => Some (x :: str, rest)
                          | None => None
                          end
                      | None => None
                      end
                  | _ => None
                  end
                else None
            end
        end
      else if N.ltb c 32 then None
      else
        match parse_chars r with
        | Some (str, rest) => Some (c :: str, rest)
        | None => None
        end
  end.

(** A number: an optional minus sign; an integer part that is 0 or starts
    with a digit 1-9; an optional fraction (a dot and at least one digit);
    an optional exponent (e or E, an optional sign, at least one digit). *)
Definition parse_int (s : jsstring) : option (jsstring * jsstring) :=
  match s with
  | c :: r =>
      if is_char "0" c then Some ([c], r)
      else if is_digit c then let (ds, r') := take_digits r in Some (c :: ds, r')
      else None
  | [] => None
  end.

Definition parse_frac (s : jsstring) : option (jsstring * jsstring) :=
  match s with
  | c :: r =>
      if is_char "." c then
        match take_digits r with
        | ([], _) => None
        | (ds, r') => Some (c :: ds, r')
        end
      else Some ([], s)
  | [] => Some ([], [])
  end.

Definition parse_exp (s : jsstring) : option (jsstring * jsstring) :=
  match s with
  | c :: r =>
      if is_char "e" c || is_char "E" c then
        let (sign, r1) :=
          match r with
          | g :: r' => if is_char "+" g || is_char "-" g then ([g], r') else ([], r)
          | [] => ([], [])
          end in
        match take_digits r1 with
        | ([], _) => None
        | (ds, r') => Some (c :: sign ++ ds, r')
        end
      else Some ([], s)
  | [] => Some ([], [])
  end.

Definition parse_number (s : jsstring) : option (jsstring * jsstring) :=
  let (sign, s1) :=
    match s with
    | c :: r => if is_char "-" c then ([c], r) else ([], s)
    | [] => ([], [])
    end in
  match parse_int s1 with
  | Some (i, s2) =>
      match parse_frac s2 with
      | Some (f, s3) =>
          match parse_exp s3 with
          | Some (e, s4) => Some (sign ++ i ++ f ++ e, s4)
          | None => None
          end
      | None => None
      end
  | None => None
  end.

Definition parse_literal (word : string) (v : value) (s : jsstring) : parsed value :=
  match strip_prefix (lit word) s with
  | Some rest => Parsed v rest
  | None => SyntaxError
  end.

(** One JSON value, after optional white space.  [parse_elements] reads the
    elements of an array after its bracket, [parse_members] the members of
    an object after its brace. *)
Fixpoint parse_value (fuel : nat) (s : jsstring) : parsed value :=
  match fuel with
  | O => OutOfFuel
  | S fuel' =>
      match skip_ws s with
      | [] => SyntaxError
      | c :: r =>
          if is_char "{" c then
            match skip_ws r with
            | [] => SyntaxError
            | c' :: r' =>
                if is_char "}" c' then Parsed (JObject []) r'
                else parse_members fuel' (c' :: r') []
            end
          else if is_char "[" c then
            match skip_ws r with
            | [] => SyntaxError
            | c' :: r' =>
                if is_char "]" c' then Parsed (JArray []) r'
                else parse_elements fuel' (c' :: r') []
            end
          else if is_quote c then
            match parse_chars r with
            | Some (str, rest) => Parsed (JString str) rest
            | None => SyntaxError
            end
          else if is_char "t" c then parse_literal "rue" (JBool true) r
          else if is_char "f" c then parse_literal "alse" (JBool false) r
          else if is_char "n" c then parse_literal "ull" JNull r
          else
            match parse_number (c :: r) with
            | Some (lexeme, rest) => Parsed (JNumber lexeme) rest
            | None => SyntaxError
            end
      end
  end

with parse_elements (fuel : nat) (s : jsstring) (acc : list value) : parsed value :=
  match fuel with
  | O => OutOfFuel
  | S fuel' =>
      match parse_value fuel' s with
      | Parsed v r =>
          match skip_ws r with
          | [] => SyntaxError
          | c :: r' =>
              if is_char "," c then parse_elements fuel' r' (acc ++ [v])
              else if is_char "]" c then Parsed (JArray (acc ++ [v])) r'
              else SyntaxError
          end
      | SyntaxError => SyntaxError
      | OutOfFuel => OutOfFuel
      end
  end

with parse_members (fuel : nat) (s : jsstring) (acc : list (jsstring * value))
  : parsed value :=
  match fuel with
  | O => OutOfFuel
  | S fuel' =>
      match skip_ws s with
      | [] => SyntaxError
      | q :: r =>
          if is_quote q then
            match parse_chars r with
            | None => SyntaxError
            | Some (k, r1) =>
                match skip_ws r1 with
                | [] => SyntaxError
                | c1 :: r2 =>
                    if is_char ":" c1 then
                      match parse_value fuel' r2 with
                      | Parsed v r3 =>
                          match skip_ws r3 with
                          | [] => SyntaxError
                          | c3 :: r4 =>
                              if is_char "," c3 then parse_members fuel' r4 (set_prop k v acc)
                              else if is_char "}" c3 then Parsed (JObject (set_prop k v acc)) r4
                              else SyntaxError
                          end
                      | SyntaxError => SyntaxError
                      | OutOfFuel => OutOfFuel
                      end
                    else SyntaxError
                end
            end
          else SyntaxError
      end
  end.

(** Fuel that always suffices (lemma [parse_value_fuel]). *)
Definition fuel_for (text : jsstring) : nat := 2 * length text + 1.

(** [JSON.parse(text)]: the value, or [None] for a thrown [SyntaxError]. *)
Definition JSON_parse (text : jsstring) : option value :=
  match parse_value (fuel_for text) text with
  | Parsed v rest =>
      match skip_ws rest with
      | [] => Some v
      | _ :: _ => None
      end
  | _ => None
  end.

End Json.
Import Json.

(* ================================================================== *)
(** ** The remote client's data ([@google/genai]) *)

(** A thrown value. *)
Inductive exn :=
| Error (message : jsstring)      (* [new Error(message)] of the application *)
| SyntaxErrorExn                   (* thrown by [JSON.parse] *)
| Rejection (reason : jsstring).  (* whatever a remote call or reader rejected with *)

(** The answer of one asynchronous call. *)
Inductive reply (A : Type) :=
| Resolves (a : A)
| Rejects (e : exn).
Arguments Resolves {A} a.
Arguments Rejects {A} e.

(** The browser [File] handed to the service: its name, its MIME type, and
    what a [FileReader] makes of [readAsDataURL(file)]. *)
Record File := {
  file_name : jsstring;
  file_type : jsstring;
  file_dataURL : reply jsstring
}.

(** The file resource of the Files API.  [state] is the raw string the
    service sent (["PROCESSING"], ["ACTIVE"], ["FAILED"], ...). *)
Record FileData := {
  name : option jsstring;
  uri : option jsstring;
  mimeType : option jsstring;
  state : option jsstring
}.

(** An upload or status answer: the resource itself, or the resource
    wrapped in a [file] field. *)
Record Envelope := {
  file : option FileData;
  self : FileData
}.

(** A response schema ([Type.OBJECT], ...); a field the source leaves out is
    [None] or the empty list. *)
Inductive SchemaType := OBJECT | ARRAY | STRING | NUMBER.

Inductive Schema := mkSchema {
  type : SchemaType;
  description : option jsstring;
  enum : list jsstring;
  items : option Schema;
  properties : list (jsstring * Schema);
  required : list jsstring
}.

(** The request of [ai.models.generateContent]. *)
Inductive Part :=
| fileDataPart (fileUri mimeType : jsstring)
| textPart (text : jsstring)
| inlineDataPart (data : option jsstring) (mimeType : jsstring).

Inductive Contents :=
| parts (ps : list Part)
| query (text : jsstring).

Inductive Tool := googleSearch.

Module Config.
Record t := {
  responseMimeType : option jsstring;
  responseSchema : option Schema;
  thinkingBudget : option Z;
  maxOutputTokens : option Z;
  tools : list Tool
}.
End Config.

Record GenerateContentRequest := {
  model : jsstring;
  contents : Contents;
  config : option Config.t
}.

(** A citation as [types.ts] declares it for [ChatMessage.sources]. *)
Module Source.
Record t := { title : jsstring; uri : jsstring }.
End Source.

Record GroundingChunk := {
  web : option Source.t;
  entry_point : option Source.t
}.

Record GroundingMetadata := { groundingChunks : option (list GroundingChunk) }.

Record Candidate := { groundingMetadata : option GroundingMetadata }.

Record GenerateContentResponse := {
  text : option jsstring;
  candidates : option (list Candidate)
}.

(** What the process and the remote service do during one operation. *)
Record World := {
  API_KEY : option jsstring;                            (* [process.env.API_KEY] *)
  files_upload : reply Envelope;                        (* [ai.files.upload] *)
  files_get : list (reply Envelope);                    (* successive [ai.files.get] *)
  models_generateContent : reply GenerateContentResponse;
  chat_sendMessage : reply GenerateContentResponse
}.

(* ================================================================== *)
(** ** Observable events, outcomes and the computation monad *)

Inductive event :=
| Progress (status : jsstring)                 (* [onProgress(status)] *)
| ConsoleError (msg : jsstring)                 (* [console.error(msg, ...)]: the label only *)
| ConsoleWarn (msg : jsstring)                  (* [console.warn(msg, ...)]: the label only *)
| Sleep (ms : Z)                               (* [setTimeout(resolve, ms)] *)
| ReadAsDataURL (fileName : jsstring)
| FilesUpload (displayName mimeType : jsstring)
| FilesGet (name : option jsstring)
| GenerateContent (req : GenerateContentRequest)
| ChatsCreate (model systemInstruction : jsstring)
              (history : list (jsstring * jsstring))
| SendMessage (message : jsstring).

Inductive outcome (A : Type) :=
| Return (a : A)
| Throw (e : exn)
| Blocked.   (* awaiting an answer the scripted [World] does not contain *)
Arguments Return {A} a.
Arguments Throw {A} e.
Arguments Blocked {A}.

Definition M (A : Type) : Type := (list event * outcome A)%type.

Definition ret {A} (a : A) : M A := ([], Return a).
Definition throw {A} (e : exn) : M A := ([], Throw e).
Definition blocked {A} : M A := ([], Blocked).
Definition emit (ev : event) : M unit := ([ev], Return tt).

Definition bind {A B} (m : M A) (k : A -> M B) : M B :=
  match m with
  | (t, Return a) => let (t', o) := k a in (t ++ t', o)
  | (t, Throw e) => (t, Throw e)
  | (t, Blocked) => (t, Blocked)
  end.

(** [try { m } catch (e) { handler e }] *)
Definition try_catch {A} (m : M A) (handler : exn -> M A) : M A :=
  match m with
  | (t, Throw e) => let (t', o) := handler e in (t ++ t', o)
  | _ => m
  end.

Definition await {A} (r : reply A) : M A :=
  match r with
  | Resolves a => ret a
  | Rejects e => throw e
  end.

Declare Scope js_scope.
Delimit Scope js_scope with js.
Notation "x <- m ;; k" := (bind m (fun x => k))
  (at level 61, m at next level, right associativity) : js_scope.
Notation "m ;; k" := (bind m (fun _ => k))
  (at level 61, right associativity) : js_scope.
Local Open Scope js_scope.

Definition trace {A} (m : M A) : list event := fst m.
Definition result {A} (m : M A) : outcome A := snd m.

(** The waits of a trace, in order, and the number of status fetches. *)
Fixpoint sleeps (t : list event) : list Z :=
  match t with
  | [] => []
  | Sleep ms :: r => ms :: sleeps r
  | _ :: r => sleeps r
  end.

Fixpoint fetches (t : list event) : nat :=
  match t with
  | [] => 0
  | FilesGet _ :: r => S (fetches r)
  | _ :: r => fetches r
  end.

Fixpoint warnings (t : list event) : nat :=
  match t with
  | [] => 0
  | ConsoleWarn _ :: r => S (warnings r)
  | _ :: r => warnings r
  end.


(* ================================================================== *)
(** ** [services/geminiService.ts] *)

Definition nl : jsstring := [10%N].

(** [s.split(sep)] for a one-character separator. *)
Fixpoint split (sep : code_unit) (s : jsstring) : list jsstring :=
  match s with
  | [] => [[]]
  | c :: r =>
      if N.eqb c sep then [] :: split sep r
      else
        match split sep r with
        | piece :: pieces => (c :: piece) :: pieces
        | [] => [[c]]
        end
  end.

(** [fileToGenerativePart]: the base64 payload is what follows the first
    comma of the data URL. *)
Definition fileToGenerativePart (f : File) : M Part :=
  emit (ReadAsDataURL (file_name f)) ;;
  base64String <- await (file_dataURL f) ;;
  let base64Data := nth_error (split (ch ",") base64String) 1 in
  ret (inlineDataPart base64Data (file_type f)).

(** The client object; it only carries the key it was built with. *)
Record GoogleGenAI := { apiKey : jsstring }.

Definition msg_no_api_key : jsstring := lit "API Key not found".

Definition getAiClient (w : World) : M GoogleGenAI :=
  match API_KEY w with
  | Some (c :: r) => ret {| apiKey := c :: r |}
  | _ => throw (Error msg_no_api_key)
  end.

(** [if (onProgress) onProgress(status)] *)
Definition report (onProgress : bool) (status : jsstring) : M unit :=
  if onProgress then emit (Progress status) else ret tt.

(** [uploadResult.file ?? uploadResult] *)
Definition unwrap (r : Envelope) : FileData :=
  match file r with
  | Some fd => fd
  | None => self r
  end.

(** [fileData.state === s] *)
Definition state_is (s : string) (fd : FileData) : bool :=
  match state fd with
  | Some st => JsString.eqb st (lit s)
  | None => false
  end.

Definition poll_interval : Z := 2000.

(** The [while (fileData.state === "PROCESSING")] loop, run against the
    successive answers of [ai.files.get]. *)
Fixpoint poll (gets : list (reply Envelope)) (onProgress : bool)
              (fileData : FileData) : M FileData :=
  if state_is "PROCESSING" fileData then
    report onProgress (lit "Processing media file (this may take a moment)...") ;;
    emit (Sleep poll_interval) ;;
    emit (FilesGet (name fileData)) ;;
    match gets with
    | [] => blocked
    | answer :: later =>
        fileData' <-
          try_catch
            (getResult <- await answer ;; ret (unwrap getResult))
            (fun e =>
               emit (ConsoleWarn (lit "Error polling file status, retrying...")) ;;
               ret fileData) ;;
        poll later onProgress fileData'
    end
  else ret fileData.

(** What one turn of the loop does before the answer of [ai.files.get]. *)
Definition iteration_events (onProgress : bool) (fileData : FileData) : list event :=
  trace (report onProgress (lit "Processing media file (this may take a moment)..."))
  ++ [Sleep poll_interval; FilesGet (name fileData)].

(** The loop is still waiting only while every status it has seen says
    PROCESSING. *)
Definition still_processing (g : reply Envelope) : Prop :=
  match g with
  | Resolves x => state_is "PROCESSING" (unwrap x) = true
  | Rejects _ => True
  end.

(** The lifecycle states of the data model: processing, active, failed. *)
Definition lifecycle (fd : FileData) : Prop :=
  state fd = Some (lit "PROCESSING")
  \/ state fd = Some (lit "ACTIVE")
  \/ state fd = Some (lit "FAILED").

(** An answer of the remote service is within the data model when the
    handle it carries is in one of the lifecycle states; a rejected request
    carries no handle. *)
Definition in_lifecycle (g : reply Envelope) : Prop :=
  match g with
  | Resolves x => lifecycle (unwrap x)
  | Rejects _ => True
  end.

Definition msg_invalid_upload : jsstring :=
  lit "Upload failed: Invalid response from Gemini API.".
Definition msg_processing_failed : jsstring :=
  lit "File processing failed on Gemini servers.".
Definition msg_missing_uri : jsstring :=
  lit "File processing incomplete: Missing URI.".

(** What [uploadMediaFile] resolves to. *)
Record Uploaded := { uploaded_uri : jsstring; uploaded_mimeType : jsstring }.

Definition uploadMediaFile (w : World) (f : File) (onProgress : bool) : M Uploaded :=
  ai <- getAiClient w ;;
  report onProgress (lit "Uploading media to safe storage...") ;;
  try_catch
    (emit (FilesUpload (file_name f) (file_type f)) ;;
     uploadResult <- await (files_upload w) ;;
     let fileData := unwrap uploadResult in
     if negb (truthy (name fileData)) || negb (truthy (uri fileData)) then
       emit (ConsoleError (lit "Invalid upload response:")) ;;
       throw (Error msg_invalid_upload)
     else
       fileData <- poll (files_get w) onProgress fileData ;;
       if state_is "FAILED" fileData then throw (Error msg_processing_failed)
       else
         match uri fileData with
         | Some (c :: r) =>
             ret {| uploaded_uri := c :: r;
                    uploaded_mimeType := or_else (mimeType fileData) (file_type f) |}
         | _ => throw (Error msg_missing_uri)
         end)
    (fun error =>
       emit (ConsoleError (lit "Media upload error:")) ;;
       throw error).

(** The events of [uploadMediaFile] up to the upload request, and the log
    entry of its [catch] block. *)
Definition upload_prefix (f : File) (onProgress : bool) : list event :=
  trace (report onProgress (lit "Uploading media to safe storage..."))
  ++ [FilesUpload (file_name f) (file_type f)].

Definition upload_failure : list event := [ConsoleError (lit "Media upload error:")].

(** *** 1. Analysis *)

Definition plain (t : SchemaType) : Schema :=
  {| type := t; description := None; enum := []; items := None;
     properties := []; required := [] |}.

Definition described (t : SchemaType) (d : string) : Schema :=
  {| type := t; description := Some (lit d); enum := []; items := None;
     properties := []; required := [] |}.

Definition array_of (d : option jsstring) (item : Schema) : Schema :=
  {| type := ARRAY; description := d; enum := []; items := Some item;
     properties := []; required := [] |}.

Definition object_of (props : list (jsstring * Schema)) (req : list jsstring) : Schema :=
  {| type := OBJECT; description := None; enum := []; items := None;
     properties := props; required := req |}.

Definition responseSchema : Schema :=
  object_of
    [ (lit "title", described STRING "A professional title for the meeting.");
      (lit "summary", described STRING "A comprehensive executive summary.");
      (lit "keyDecisions",
         array_of (Some (lit "List of key decisions made.")) (plain STRING));
      (lit "transcript",
         array_of None
           (object_of
              [ (lit "speaker", plain STRING);
                (lit "timestamp", described STRING "Format HH:MM:SS");
                (lit "text", plain STRING) ] []));
      (lit "actionItems",
         array_of None
           (object_of
              [ (lit "task", plain STRING);
                (lit "owner", plain STRING);
                (lit "status",
                   {| type := STRING; description := None;
                      enum := [lit "Pending"; lit "In Progress"; lit "Done"];
                      items := None; properties := []; required := [] |});
                (lit "dueDate", plain STRING) ] []));
      (lit "sentimentData",
         array_of
           (Some (lit "Analyze the sentiment flow of the meeting at 1-minute intervals."))
           (object_of
              [ (lit "time", plain STRING);
                (lit "score",
                   described NUMBER "Float between -1.0 (Negative) and 1.0 (Positive)");
                (lit "mood", plain STRING) ] []));
      (lit "topics", array_of None (plain STRING)) ]
    [ lit "title"; lit "summary"; lit "transcript"; lit "actionItems";
      lit "sentimentData"; lit "topics" ].

(** The six properties the response schema lists as required. *)
Definition required_fields : list jsstring :=
  [ lit "title"; lit "summary"; lit "transcript"; lit "actionItems";
    lit "sentimentData"; lit "topics" ].

Definition analysis_prompt : jsstring :=
  lit "Analyze this meeting recording. " ++ nl ++
  lit "          1. Provide a full transcript with speaker diarization (e.g., Speaker 1, Speaker 2)." ++ nl ++
  lit "          2. Generate a high-quality summary and extract action items." ++ nl ++
  lit "          3. Analyze the visual context if video is provided (e.g., slides shown, screen sharing content) and incorporate into the notes." ++ nl ++
  lit "          4. Perform sentiment analysis over time." ++ nl ++
  lit "          5. Return ONLY JSON matching the schema.".

Definition analysis_request (fileUri mime : jsstring) : GenerateContentRequest :=
  {| model := lit "gemini-3-pro-preview";
     contents := parts [fileDataPart fileUri mime; textPart analysis_prompt];
     config := Some {| Config.responseMimeType := Some (lit "application/json");
                       Config.responseSchema := Some responseSchema;
                       Config.thinkingBudget := Some 32768%Z;
                       Config.maxOutputTokens := None;
                       Config.tools := [] |} |}.

(** The events of [analyzeMeetingMedia] between the upload and the answer
    of the analysis request. *)
Definition analysis_events (onProgress : bool) (up : Uploaded) : list event :=
  trace (report onProgress (lit "Deep Thinking & Analysis..."))
  ++ [GenerateContent (analysis_request (uploaded_uri up) (uploaded_mimeType up))].

Definition msg_no_response : jsstring := lit "No response from AI".
Definition msg_parse_failed : jsstring := lit "Failed to parse analysis results.".

(** [JSON.parse(text)] as a computation: it throws a [SyntaxError]. *)
Definition JSON_parse_or_throw (t : jsstring) : M value :=
  match JSON_parse t with
  | Some v => ret v
  | None => throw SyntaxErrorExn
  end.

(** The value returned is the parsed payload itself: the cast
    [as MeetingAnalysisResult] has no run-time effect. *)
Definition analyzeMeetingMedia (w : World) (f : File) (onProgress : bool) : M value :=
  ai <- getAiClient w ;;
  up <- uploadMediaFile w f onProgress ;;
  report onProgress (lit "Deep Thinking & Analysis...") ;;
  emit (GenerateContent (analysis_request (uploaded_uri up) (uploaded_mimeType up))) ;;
  response <- await (models_generateContent w) ;;
  match text response with
  | Some (c :: r) =>
      try_catch
        (JSON_parse_or_throw (c :: r))
        (fun e =>
           emit (ConsoleError (lit "Failed to parse JSON")) ;;
           throw (Error msg_parse_failed))
  | _ => throw (Error msg_no_response)
  end.

(** *** 2. Chat against the meeting context *)

Definition context_limit : Z := 30000.

(** The limit as a number of characters. *)
Definition limit : nat := Z.to_nat context_limit.

Definition instruction_head : jsstring :=
  lit "You are a helpful meeting assistant. Answer questions based on the following meeting context data: "
  ++ nl ++ lit "  ".

Definition truncation_notice : jsstring := lit "... (truncated if too long)".

Definition instruction_tail : jsstring :=
  truncation_notice ++ lit ". " ++ nl ++ lit "  Be concise and helpful.".

Definition systemInstruction (contextData : jsstring) : jsstring :=
  instruction_head ++ substring contextData 0 context_limit ++ instruction_tail.

Definition msg_no_chat_response : jsstring := lit "I couldn't generate a response.".

(** The [history] handed to [ai.chats.create] is recorded as the (role,
    content) pairs from which the source builds its [parts]. *)
Definition chatWithMeetingContext (w : World) (history : list (jsstring * jsstring))
    (newMessage contextData : jsstring) : M jsstring :=
  ai <- getAiClient w ;;
  emit (ChatsCreate (lit "gemini-2.5-flash-lite") (systemInstruction contextData) history) ;;
  emit (SendMessage newMessage) ;;
  result <- await (chat_sendMessage w) ;;
  ret (or_else (text result) msg_no_chat_response).

(** *** 3. Research with search grounding *)

Definition research_request (q : jsstring) : GenerateContentRequest :=
  {| model := lit "gemini-2.5-flash";
     contents := query q;
     config := Some {| Config.responseMimeType := None;
                       Config.responseSchema := None;
                       Config.thinkingBudget := None;
                       Config.maxOutputTokens := None;
                       Config.tools := [googleSearch] |} |}.

(** [response.candidates?.[0]?.groundingMetadata?.groundingChunks || []] *)
Definition grounding_chunks (response : GenerateContentResponse) : list GroundingChunk :=
  match candidates response with
  | Some (first :: _) =>
      match groundingMetadata first with
      | Some meta =>
          match groundingChunks meta with
          | Some chunks => chunks
          | None => []
          end
      | None => []
      end
  | _ => []
  end.

(** A chunk carries a link when it has a [web] or an [entry_point] one. *)
Definition carries_link (c : GroundingChunk) : bool :=
  match web c, entry_point c with
  | None, None => false
  | _, _ => true
  end.

Record Research := { research_text : jsstring; research_sources : list GroundingChunk }.

Definition msg_no_results : jsstring := lit "No results found.".

Definition researchTopic (w : World) (q : jsstring) : M Research :=
  ai <- getAiClient w ;;
  emit (GenerateContent (research_request q)) ;;
  response <- await (models_generateContent w) ;;
  ret {| research_text := or_else (text response) msg_no_results;
         research_sources := grounding_chunks response |}.

(** *** 4. Image analysis *)

Definition image_request (imgPart : Part) : GenerateContentRequest :=
  {| model := lit "gemini-3-pro-image-preview";
     contents :=
       parts [imgPart;
              textPart (lit "Detailed analysis of this image content, text, and visual elements.")];
     config := None |}.

Definition analyzeUploadedImage (w : World) (f : File) : M jsstring :=
  ai <- getAiClient w ;;
  imgPart <- fileToGenerativePart f ;;
  emit (GenerateContent (image_request imgPart)) ;;
  response <- await (models_generateContent w) ;;
  ret (or_else (text response) (lit "Could not analyze image.")).

(** *** Conformance of a payload to a response schema

    Not part of the application code: the meaning of "the payload conforms
    to the schema", against which the behaviour of [analyzeMeetingMedia] is
    stated.  A value conforms when it has the schema's type, a string is one
    of the [enum] values when there are any, every array element conforms to
    [items], every [required] property is present and every present
    property that the schema declares conforms to its declaration. *)
Fixpoint schema_of (k : jsstring) (props : list (jsstring * Schema)) : option Schema :=
  match props with
  | [] => None
  | (k', s) :: rest => if JsString.eqb k k' then Some s else schema_of k rest
  end.

Definition has_prop (k : jsstring) (v : value) : bool :=
  match get_prop k v with
  | Some _ => true
  | None => false
  end.

Fixpoint conforms (s : Schema) (v : value) {struct v} : bool :=
  match type s, v with
  | STRING, JString str =>
      match enum s with
      | [] => true
      | allowed => existsb (JsString.eqb str) allowed
      end
  | NUMBER, JNumber _ => true
  | ARRAY, JArray vs =>
      match items s with
      | Some item => forallb (fun x => conforms item x) vs
      | None => true
      end
  | OBJECT, JObject ms =>
      forallb (fun k => has_prop k v) (required s)
      && forallb (fun kv : jsstring * value =>
                    let (k, x) := kv in
                    match schema_of k (properties s) with
                    | Some ps => conforms ps x
                    | None => true
                    end) ms
  | _, _ => false
  end.

(* ================================================================== *)
(** ** [components/ChatInterface.tsx] and the message type of [types.ts] *)

Module ChatInterface.

Inductive Role := user | model.

Record ChatMessage := {
  id : jsstring;
  role : Role;
  content : jsstring;
  sources : option (list Source.t);
  isThinking : option bool
}.

(** The component's state ([useState]). *)
Record State := {
  messages : list ChatMessage;
  input : jsstring;
  isLoading : bool;
  useSearch : bool
}.

Definition role_name (r : Role) : jsstring :=
  match r with
  | user => lit "user"
  | model => lit "model"
  end.

(** White space and line terminators of ECMAScript, as [trim] strips them. *)
Definition is_space (c : code_unit) : bool :=
  N.eqb c 9 || N.eqb c 10 || N.eqb c 11 || N.eqb c 12 || N.eqb c 13
  || N.eqb c 32 || N.eqb c 160 || N.eqb c 5760
  || (N.leb 8192 c && N.leb c 8202)
  || N.eqb c 8232 || N.eqb c 8233 || N.eqb c 8239 || N.eqb c 8287
  || N.eqb c 12288 || N.eqb c 65279.

Fixpoint trim_start (s : jsstring) : jsstring :=
  match s with
  | c :: r => if is_space c then trim_start r else s
  | [] => []
  end.

Definition trim (s : jsstring) : jsstring :=
  rev (trim_start (rev (trim_start s))).

(** [n.toString()] for a non-negative integer below 10^21, such as
    [Date.now()]. *)
Fixpoint digits (u : Decimal.uint) : jsstring :=
  match u with
  | Decimal.Nil => []
  | Decimal.D0 r => 48%N :: digits r
  | Decimal.D1 r => 49%N :: digits r
  | Decimal.D2 r => 50%N :: digits r
  | Decimal.D3 r => 51%N :: digits r
  | Decimal.D4 r => 52%N :: digits r
  | Decimal.D5 r => 53%N :: digits r
  | Decimal.D6 r => 54%N :: digits r
  | Decimal.D7 r => 55%N :: digits r
  | Decimal.D8 r => 56%N :: digits r
  | Decimal.D9 r => 57%N :: digits r
  end.

Definition toString (n : N) : jsstring := digits (N.to_uint n).

(** [xs.filter(Boolean)] on entries that are objects or [undefined]. *)
Fixpoint filter_Boolean {A} (xs : list (option A)) : list A :=
  match xs with
  | [] => []
  | Some x :: r => x :: filter_Boolean r
  | None :: r => filter_Boolean r
  end.

(** [s.web || s.entry_point] *)
Definition link_of (s : GroundingChunk) : option Source.t :=
  match web s with
  | Some l => Some l
  | None => entry_point s
  end.

(** [sources.length > 0 ? sources.map(s => s.web || s.entry_point).filter(Boolean)
                        : undefined] *)
Definition message_sources (srcs : list GroundingChunk) : option (list Source.t) :=
  match srcs with
  | [] => None
  | _ :: _ => Some (filter_Boolean (map link_of srcs))
  end.

Definition modelMsg (now : N) (responseText : jsstring) (srcs : list GroundingChunk)
  : ChatMessage :=
  {| id := toString (now + 1);
     role := model;
     content := responseText;
     sources := message_sources srcs;
     isThinking := None |}.

Definition greeting : ChatMessage :=
  {| id := lit "1";
     role := model;
     content := lit "Hello! I've analyzed the meeting. Ask me anything about specific decisions, action items, or what a specific person said.";
     sources := None;
     isThinking := None |}.

Definition initial : State :=
  {| messages := [greeting]; input := []; isLoading := false; useSearch := false |}.

Definition exn_text (e : exn) : jsstring :=
  match e with
  | Error m => m
  | SyntaxErrorExn => lit "SyntaxError"
  | Rejection r => r
  end.

(** The request of one turn: the answer text and the raw grounding chunks. *)
Definition ask (w : World) (contextData : jsstring) (st : State) (question : jsstring)
  : M (jsstring * list GroundingChunk) :=
  if useSearch st then
    r <- researchTopic w question ;;
    ret (research_text r, research_sources r)
  else
    let history := map (fun m => (role_name (role m), content m)) (messages st) in
    responseText <- chatWithMeetingContext w history question contextData ;;
    ret (responseText, []).

(** [handleSend], with [now] and [later] the two readings of [Date.now()]:
    the events performed and the component state once the handler has run
    as far as the scripted world lets it. *)
Definition handleSend (w : World) (contextData : jsstring) (now later : N) (st : State)
  : list event * State :=
  match trim (input st) with
  | [] => ([], st)
  | _ :: _ =>
      let userMsg :=
        {| id := toString now; role := user; content := input st;
           sources := None; isThinking := None |} in
      let sent := messages st ++ [userMsg] in
      match ask w contextData st (content userMsg) with
      | (t, Return (responseText, srcs)) =>
          (t, {| messages := sent ++ [modelMsg later responseText srcs];
                 input := []; isLoading := false; useSearch := useSearch st |})
      | (t, Throw e) =>
          (t ++ [ConsoleError (exn_text e)],
           {| messages :=
                sent ++ [{| id := toString later; role := model;
                            content := lit "Sorry, I encountered an error processing your request.";
                            sources := None; isThinking := None |}];
              input := []; isLoading := false; useSearch := useSearch st |})
      | (t, Blocked) =>
          (t, {| messages := sent; input := []; isLoading := true;
                 useSearch := useSearch st |})
      end
  end.

End ChatInterface.

(* ================================================================== *)
(** ** More of the panel: the keyboard handler and the send button *)

(** [handleKeyDown]: whether [preventDefault] was called, and what
    [handleSend] did when the key was a plain Enter. *)
Definition handleKeyDown (w : World) (contextData : jsstring) (now later : N)
    (key : jsstring) (shiftKey : bool) (st : ChatInterface.State)
  : bool * (list event * ChatInterface.State) :=
  if JsString.eqb key (lit "Enter") && negb shiftKey then
    (true, ChatInterface.handleSend w contextData now later st)
  else (false, ([], st)).

(** [disabled={!input.trim() || isLoading}] of the send button. *)
Definition send_disabled (st : ChatInterface.State) : bool :=
  match ChatInterface.trim (ChatInterface.input st) with
  | [] => true
  | _ :: _ => ChatInterface.isLoading st
  end.

(* ================================================================== *)
(** ** Reading a trace *)

(** The progress reports of a trace, in order. *)
Fixpoint progress (t : list event) : list jsstring :=
  match t with
  | [] => []
  | Progress status :: r => status :: progress r
  | _ :: r => progress r
  end.

(** The progress reports of the service, as the source writes them. *)
Definition msg_processing : jsstring :=
  lit "Processing media file (this may take a moment)...".
Definition msg_uploading : jsstring := lit "Uploading media to safe storage...".
Definition msg_thinking : jsstring := lit "Deep Thinking & Analysis...".

(** The requests of a trace to [ai.models.generateContent]. *)
Fixpoint generate_requests (t : list event) : list GenerateContentRequest :=
  match t with
  | [] => []
  | GenerateContent req :: r => req :: generate_requests r
  | _ :: r => generate_requests r
  end.

(** The number of upload requests of a trace. *)
Fixpoint uploads (t : list event) : nat :=
  match t with
  | [] => 0
  | FilesUpload _ _ :: r => S (uploads r)
  | _ :: r => uploads r
  end.

(** The events of a trace other than the entries of the console: the
    requests, the waits and the progress reports.  A console entry records
    its label and not the values logged after it, so two runs are compared
    on these events when the logged values may differ. *)
Fixpoint without_logs (t : list event) : list event :=
  match t with
  | [] => []
  | ConsoleError _ :: r => without_logs r
  | ConsoleWarn _ :: r => without_logs r
  | ev :: r => ev :: without_logs r
  end.

(** The same world with other answers to the status fetches, and with
    another answer to the upload. *)
Definition with_gets (w : World) (gets : list (reply Envelope)) : World :=
  {| API_KEY := API_KEY w;
     files_upload := files_upload w;
     files_get := gets;
     models_generateContent := models_generateContent w;
     chat_sendMessage := chat_sendMessage w |}.

Definition with_upload (w : World) (up : reply Envelope) : World :=
  {| API_KEY := API_KEY w;
     files_upload := up;
     files_get := files_get w;
     models_generateContent := models_generateContent w;
     chat_sendMessage := chat_sendMessage w |}.

(** The resource an answer carries, whatever its wrapping. *)
Definition resource (r : reply Envelope) : reply FileData :=
  match r with
  | Resolves x => Resolves (unwrap x)
  | Rejects e => Rejects e
  end.

(* ================================================================== *)
(** ** [App.tsx] *)

(** [s.startsWith(p)] and [s.includes(needle)]. *)
Fixpoint startsWith (p s : jsstring) : bool :=
  match p, s with
  | [], _ => true
  | x :: p', y :: s' => N.eqb x y && startsWith p' s'
  | _ :: _, [] => false
  end.

Fixpoint includes (needle s : jsstring) : bool :=
  startsWith needle s
  || match s with
     | [] => false
     | _ :: r => includes needle r
     end.

Module App.

Inductive AnalysisStatus := IDLE | UPLOADING | THINKING | ANALYZING | COMPLETED | ERROR.

(** The component's state; [analysisResult] starts as [null]. *)
Record State := {
  status : AnalysisStatus;
  analysisResult : value;
  progressText : jsstring;
  errorMsg : jsstring
}.

Definition initial : State :=
  {| status := IDLE; analysisResult := JNull; progressText := []; errorMsg := [] |}.

(** What the handler does besides its state updates: the events of the
    service call, [alert(message)] and [console.error(e)]. *)
Inductive effect :=
| Service (e : event)
| Alert (message : jsstring)
| ConsoleErrorValue (e : exn).

(** What one screen shows. *)
Inductive View :=
| Dashboard (data : value)
| UploadScreen (banner : option jsstring)
| ProgressScreen (heading text : jsstring) (thinkingNote : bool).

Definition set_status (s : AnalysisStatus) (st : State) : State :=
  {| status := s; analysisResult := analysisResult st;
     progressText := progressText st; errorMsg := errorMsg st |}.

(** The callback handed to [analyzeMeetingMedia]:
    [if (msg.includes("Thinking")) setStatus(THINKING); setProgressText(msg)]. *)
Definition onProgress (msg : jsstring) (st : State) : State :=
  {| status := if includes (lit "Thinking") msg then THINKING else status st;
     analysisResult := analysisResult st;
     progressText := msg;
     errorMsg := errorMsg st |}.

(** The callback run at every progress report of a trace. *)
Fixpoint callbacks (t : list event) (st : State) : State :=
  match t with
  | [] => st
  | Progress msg :: r => callbacks r (onProgress msg st)
  | _ :: r => callbacks r st
  end.

(** [onReset] of the dashboard: [() => setStatus(IDLE)]. *)
Definition onReset (st : State) : State := set_status IDLE st.

Section Host.

(** What the embedding leaves to the host: whether the double a JSON number
    denotes is zero, the message of the [SyntaxError] of [JSON.parse], and,
    for a value a remote call rejected with, its [message] when it is an
    [Error] object. *)
Variable number_is_zero : jsstring -> bool.
Variable syntax_error_message : jsstring.
Variable rejection_message : jsstring -> option jsstring.

(** [ToBoolean] of a parsed value. *)
Definition ToBoolean (v : value) : bool :=
  match v with
  | JNull => false
  | JBool b => b
  | JNumber lexeme => negb (number_is_zero lexeme)
  | JString [] => false
  | JString (_ :: _) => true
  | JArray _ => true
  | JObject _ => true
  end.

(** [error instanceof Error ? error.message : "An unknown error occurred"] *)
Definition error_text (e : exn) : jsstring :=
  match e with
  | Error m => m
  | SyntaxErrorExn => syntax_error_message
  | Rejection r =>
      match rejection_message r with
      | Some m => m
      | None => lit "An unknown error occurred"
      end
  end.

(** [handleFileUpload] for the file of the change event, if any: the
    effects performed and the state once the handler has run as far as the
    scripted world lets it. *)
Definition handleFileUpload (w : World) (picked : option File) (st : State)
  : list effect * State :=
  match picked with
  | None => ([], st)
  | Some f =>
      if startsWith (lit "image/") (file_type f) then
        let st1 :=
          {| status := ANALYZING; analysisResult := JNull;
             progressText := lit "Analyzing image..."; errorMsg := [] |} in
        match analyzeUploadedImage w f with
        | (t, Return answer) =>
            (map Service t
               ++ [Alert (lit "Image Analysis (Gemini 3 Pro): " ++ nl ++ answer)],
             set_status IDLE st1)
        | (t, Throw e) =>
            (map Service t ++ [ConsoleErrorValue e], set_status ERROR st1)
        | (t, Blocked) => (map Service t, st1)
        end
      else
        let st1 :=
          {| status := UPLOADING; analysisResult := JNull;
             progressText := progressText st; errorMsg := [] |} in
        match analyzeMeetingMedia w f true with
        | (t, Return data) =>
            let st2 := callbacks t st1 in
            (map Service t,
             {| status := COMPLETED; analysisResult := data;
                progressText := progressText st2; errorMsg := errorMsg st2 |})
        | (t, Throw e) =>
            let st2 := callbacks t st1 in
            (map Service t ++ [ConsoleErrorValue e],
             {| status := ERROR; analysisResult := analysisResult st2;
                progressText := progressText st2; errorMsg := error_text e |})
        | (t, Blocked) => (map Service t, callbacks t st1)
        end
  end.

(** What the component renders. *)
Definition render (st : State) : View :=
  match status st with
  | COMPLETED =>
      if ToBoolean (analysisResult st) then Dashboard (analysisResult st)
      else
        ProgressScreen (lit "Finalizing Analysis...")
          (or_else (Some (progressText st)) (lit "Please wait while we process your meeting."))
          false
  | IDLE => UploadScreen None
  | ERROR =>
      UploadScreen
        (Some (or_else (Some (errorMsg st))
                 (lit "Something went wrong. Please check your API key and try again.")))
  | UPLOADING =>
      ProgressScreen (lit "Uploading Media...")
        (or_else (Some (progressText st)) (lit "Please wait while we process your meeting."))
        false
  | THINKING =>
      ProgressScreen (lit "Gemini is Thinking...")
        (or_else (Some (progressText st)) (lit "Please wait while we process your meeting."))
        true
  | ANALYZING =>
      ProgressScreen (lit "Finalizing Analysis...")
        (or_else (Some (progressText st)) (lit "Please wait while we process your meeting."))
        false
  end.

End Host.

End App.

(** The user's message of a turn. *)
Definition userMsg (now : N) (st : ChatInterface.State) : ChatInterface.ChatMessage :=
  {| ChatInterface.id := ChatInterface.toString now;
     ChatInterface.role := ChatInterface.user;
     ChatInterface.content := ChatInterface.input st;
     ChatInterface.sources := None;
     ChatInterface.isThinking := None |}.

(** The message shown when the request of a turn has failed. *)
Definition apology (later : N) : ChatInterface.ChatMessage :=
  {| ChatInterface.id := ChatInterface.toString later;
     ChatInterface.role := ChatInterface.model;
     ChatInterface.content :=
       lit "Sorry, I encountered an error processing your request.";
     ChatInterface.sources := None;
     ChatInterface.isThinking := None |}.

(** The state after a turn that added [reply]. *)
Definition after_turn (now : N) (st : ChatInterface.State)
    (reply : ChatInterface.ChatMessage) : ChatInterface.State :=
  {| ChatInterface.messages := ChatInterface.messages st ++ [userMsg now st; reply];
     ChatInterface.input := [];
     ChatInterface.isLoading := false;
     ChatInterface.useSearch := ChatInterface.useSearch st |}.

(* ================================================================== *)
(** ** Scripted worlds used as concrete inputs *)

(** No API key in the process configuration. *)
Definition no_key_world : World :=
  {| API_KEY := None;
     files_upload := Rejects (Rejection (lit "offline"));
     files_get := [];
     models_generateContent := Rejects (Rejection (lit "offline"));
     chat_sendMessage := Rejects (Rejection (lit "offline")) |}.

(** The file the user picked. *)
Definition clip : File :=
  {| file_name := lit "standup.mp4"; file_type := lit "video/mp4";
     file_dataURL := Resolves (lit "data:video/mp4;base64,AAAA") |}.

(** A file resource with identifier, URI and the given state; an answer
    that is the resource itself. *)
Definition handle (n u : string) (st : option jsstring) : FileData :=
  {| name := Some (lit n); uri := Some (lit u); mimeType := Some (lit "video/mp4");
     state := st |}.

Definition direct (fd : FileData) : Envelope := {| file := None; self := fd |}.

(** The upload answer has no URI. *)
Definition no_uri_world : World :=
  {| API_KEY := Some (lit "k");
     files_upload :=
       Resolves (direct {| name := Some (lit "files/a"); uri := None;
                           mimeType := None; state := Some (lit "PROCESSING") |});
     files_get := [];
     models_generateContent := Rejects (Rejection (lit "unused"));
     chat_sendMessage := Rejects (Rejection (lit "unused")) |}.

(** Upload PROCESSING, first fetch PROCESSING, second fetch ACTIVE. *)
Definition slow_world : World :=
  {| API_KEY := Some (lit "k");
     files_upload := Resolves (direct (handle "files/a" "https://g/files/a" (Some (lit "PROCESSING"))));
     files_get :=
       [Resolves (direct (handle "files/a" "https://g/files/a" (Some (lit "PROCESSING"))));
        Resolves (direct (handle "files/a" "https://g/files/a" (Some (lit "ACTIVE"))))];
     models_generateContent := Rejects (Rejection (lit "unused"));
     chat_sendMessage := Rejects (Rejection (lit "unused")) |}.

(** Upload PROCESSING, first fetch rejected, second fetch ACTIVE. *)
Definition flaky_world : World :=
  {| API_KEY := Some (lit "k");
     files_upload :=
       Resolves (direct (handle "files/a" "https://g/files/a" (Some (lit "PROCESSING"))));
     files_get :=
       [Rejects (Rejection (lit "503"));
        Resolves (direct (handle "files/a" "https://g/files/a" (Some (lit "ACTIVE"))))];
     models_generateContent := Rejects (Rejection (lit "unused"));
     chat_sendMessage := Rejects (Rejection (lit "unused")) |}.

(** The upload answer has identifier and URI and no state. *)
Definition stateless_world : World :=
  {| API_KEY := Some (lit "k");
     files_upload := Resolves (direct (handle "files/a" "https://g/files/a" None));
     files_get := [];
     models_generateContent := Rejects (Rejection (lit "unused"));
     chat_sendMessage := Rejects (Rejection (lit "unused")) |}.

(** The upload is ACTIVE at once and every request answers the given text. *)
Definition active_upload : reply Envelope :=
  Resolves (direct (handle "files/a" "https://g/files/a" (Some (lit "ACTIVE")))).

Definition answering (key : option jsstring) (answer : string) : World :=
  {| API_KEY := key;
     files_upload := active_upload;
     files_get := [];
     models_generateContent :=
       Resolves {| text := Some (json_lit answer); candidates := None |};
     chat_sendMessage := Resolves {| text := Some (json_lit answer); candidates := None |} |}.

(** A payload that is valid JSON and lacks five of the six required fields. *)
Definition partial_world : World :=
  answering (Some (lit "k")) "{'title': 'Weekly sync'}".

Definition partial_payload : value :=
  JObject [(lit "title", JString (lit "Weekly sync"))].

(** A payload with the six required fields and no [keyDecisions]. *)
Definition undecided_world : World :=
  answering (Some (lit "k"))
    "{'title': 'Weekly sync', 'summary': 'Short.', 'transcript': [], 'actionItems': [], 'sentimentData': [{'time': '00:01:00', 'score': 0.5, 'mood': 'calm'}], 'topics': ['planning']}".

Definition undecided_payload : value :=
  JObject
    [ (lit "title", JString (lit "Weekly sync"));
      (lit "summary", JString (lit "Short."));
      (lit "transcript", JArray []);
      (lit "actionItems", JArray []);
      (lit "sentimentData",
         JArray [JObject [ (lit "time", JString (lit "00:01:00"));
                           (lit "score", JNumber (lit "0.5"));
                           (lit "mood", JString (lit "calm")) ]]);
      (lit "topics", JArray [JString (lit "planning")]) ].

(** A context of 30,001 characters. *)
Definition long_context : jsstring := repeat (ch "a") (S limit).

Definition source_A : Source.t := {| Source.title := lit "A"; Source.uri := lit "http://a" |}.

Definition chunk_A : GroundingChunk := {| web := Some source_A; entry_point := None |}.

Definition empty_chunk : GroundingChunk := {| web := None; entry_point := None |}.

(** A search answer grounded on [[{web: {title: "A", uri: "http://a"}}, {}]]. *)
Definition grounded_world : World :=
  {| API_KEY := Some (lit "k");
     files_upload := Rejects (Rejection (lit "unused"));
     files_get := [];
     models_generateContent :=
       Resolves
         {| text := Some (lit "Found it.");
            candidates :=
              Some [{| groundingMetadata :=
                         Some {| groundingChunks := Some [chunk_A; empty_chunk] |} |}] |};
     chat_sendMessage := Rejects (Rejection (lit "unused")) |}.

(** The chat panel in search mode with a question typed in. *)
Definition searching : ChatInterface.State :=
  {| ChatInterface.messages := [ChatInterface.greeting];
     ChatInterface.input := lit "what is A?";
     ChatInterface.isLoading := false;
     ChatInterface.useSearch := true |}.

(** Upload PROCESSING, first fetch FAILED (with a URI). *)
Definition failed_world : World :=
  with_gets slow_world
    [Resolves (direct (handle "files/a" "https://g/files/a" (Some (lit "FAILED"))))].

(** Upload PROCESSING with a URI, first fetch ACTIVE without URI. *)
Definition uriless : Envelope :=
  direct {| name := Some (lit "files/a"); uri := None; mimeType := None;
            state := Some (lit "ACTIVE") |}.

Definition uriless_world : World := with_gets slow_world [Resolves uriless].

(** The upload request is rejected. *)
Definition rejecting_world : World :=
  with_upload slow_world (Rejects (Rejection (lit "413"))).

(** Upload PROCESSING; the fetches answer PROCESSING, fail, answer
    PROCESSING. *)
Definition stuck_world : World :=
  with_gets slow_world
    [Resolves (direct (handle "files/a" "https://g/files/a" (Some (lit "PROCESSING"))));
     Rejects (Rejection (lit "503"));
     Resolves (direct (handle "files/a" "https://g/files/a" (Some (lit "PROCESSING"))))].

(** An answer that carries the resource in its [file] field. *)
Definition wrapped (fd : FileData) : Envelope :=
  {| file := Some fd;
     self := {| name := None; uri := None; mimeType := None; state := None |} |}.

(** [slow_world] with every answer wrapped. *)
Definition wrapped_world : World :=
  {| API_KEY := Some (lit "k");
     files_upload :=
       Resolves (wrapped (handle "files/a" "https://g/files/a" (Some (lit "PROCESSING"))));
     files_get :=
       [Resolves (wrapped (handle "files/a" "https://g/files/a" (Some (lit "PROCESSING"))));
        Resolves (wrapped (handle "files/a" "https://g/files/a" (Some (lit "ACTIVE"))))];
     models_generateContent := Rejects (Rejection (lit "unused"));
     chat_sendMessage := Rejects (Rejection (lit "unused")) |}.

(** The upload answer is ACTIVE and names no MIME type. *)
Definition untyped : Envelope :=
  direct {| name := Some (lit "files/a"); uri := Some (lit "https://g/files/a");
            mimeType := None; state := Some (lit "ACTIVE") |}.

Definition untyped_world : World := with_upload slow_world (Resolves untyped).

(** The analysis request answers with the empty text, or is rejected. *)
Definition silent_world : World := answering (Some (lit "k")) "".

Definition overloaded_world : World :=
  {| API_KEY := Some (lit "k");
     files_upload := active_upload;
     files_get := [];
     models_generateContent := Rejects (Rejection (lit "429"));
     chat_sendMessage := Rejects (Rejection (lit "429")) |}.

(** The analysis request answers [null]. *)
Definition null_world : World := answering (Some (lit "k")) "null".

(** A picture and what the reader makes of it. *)
Definition photo : File :=
  {| file_name := lit "slide.png"; file_type := lit "image/png";
     file_dataURL := Resolves (lit "data:image/png;base64,iVBORw0KGgo=") |}.

(** The chat panel in context mode with a question typed in, and with a
    blank input. *)
Definition chatting : ChatInterface.State :=
  {| ChatInterface.messages := [ChatInterface.greeting];
     ChatInterface.input := lit " Who spoke? ";
     ChatInterface.isLoading := true;
     ChatInterface.useSearch := false |}.

Definition idle_panel : ChatInterface.State :=
  {| ChatInterface.messages := [ChatInterface.greeting];
     ChatInterface.input := lit "   ";
     ChatInterface.isLoading := false;
     ChatInterface.useSearch := false |}.

(** The host as far as the examples need it: [0] is the only zero, a
    rejected value is an [Error] whose message is the reason. *)
Definition zero_lexeme (lexeme : jsstring) : bool := JsString.eqb lexeme (lit "0").
Definition reason_is_message (reason : jsstring) : option jsstring := Some reason.

(* ================================================================== *)
(** * Properties *)

Local Open Scope js_scope.

(** ** The embedding on concrete inputs *)

Example substring_swaps_and_clamps :
  substring (lit "abcdef") 4 1 = lit "bcd"
  /\ substring (lit "abcdef") (-3) 2 = lit "ab"
  /\ substring (lit "abcdef") 2 99 = lit "cdef".
Proof. repeat split. Qed.

Example JSON_parse_accepts :
  JSON_parse (json_lit " {'a': [1, -2.5e+3, true, null], 'b': {}, 'a': 'xA\n'} ")
  = Some (JObject [ (lit "a", JString [120; 65; 10]%N); (lit "b", JObject []) ])
  /\ JSON_parse (lit "[[], [0.5]]") = Some (JArray [JArray []; JArray [JNumber (lit "0.5")]])
  /\ JSON_parse (lit "-0") = Some (JNumber (lit "-0")).
Proof. vm_compute. repeat split. Qed.

Example JSON_parse_rejects :
  map JSON_parse
    [ lit ""; lit "01"; lit "[1,]"; lit "{}x"; json_lit "'abc"; lit "1e"; lit "1.";
      lit "tru"; lit "-"; json_lit "{'a' 1}"; json_lit "{'a': 1,}"; json_lit "{a: 1}";
      json_lit "'\x'"; lit "[1 2]" ]
  = repeat None 14.
Proof. vm_compute. reflexivity. Qed.

Example split_data_url :
  nth_error (split (ch ",") (lit "data:image/png;base64,iVBORw0KGgo=")) 1
  = Some (lit "iVBORw0KGgo=")
  /\ nth_error (split (ch ",") (lit "no comma")) 1 = None.
Proof. repeat split. Qed.

Example trim_and_toString :
  ChatInterface.trim (lit "  hi there ") = lit "hi there"
  /\ ChatInterface.trim [32; 9; 10; 160]%N = []
  /\ ChatInterface.toString 1700000000001 = lit "1700000000001".
Proof. vm_compute. repeat split. Qed.

(** A blank input is ignored; in context mode the answer of the chat session
    becomes a message without sources. *)
Example handleSend_context_mode :
  ChatInterface.handleSend (answering (Some (lit "k")) "Alice did.") (lit "{}") 1000 2000
    {| ChatInterface.messages := [ChatInterface.greeting];
       ChatInterface.input := lit "   ";
       ChatInterface.isLoading := false;
       ChatInterface.useSearch := false |}
  = ([], {| ChatInterface.messages := [ChatInterface.greeting];
            ChatInterface.input := lit "   ";
            ChatInterface.isLoading := false;
            ChatInterface.useSearch := false |})
  /\ ChatInterface.messages
       (snd (ChatInterface.handleSend (answering (Some (lit "k")) "Alice did.") (lit "{}")
               1000 2000
               {| ChatInterface.messages := [ChatInterface.greeting];
                  ChatInterface.input := lit "Who spoke?";
                  ChatInterface.isLoading := false;
                  ChatInterface.useSearch := false |}))
     = [ ChatInterface.greeting;
         {| ChatInterface.id := lit "1000"; ChatInterface.role := ChatInterface.user;
            ChatInterface.content := lit "Who spoke?";
            ChatInterface.sources := None; ChatInterface.isThinking := None |};
         {| ChatInterface.id := lit "2001"; ChatInterface.role := ChatInterface.model;
            ChatInterface.content := lit "Alice did.";
            ChatInterface.sources := None; ChatInterface.isThinking := None |} ].
Proof. vm_compute. repeat split. Qed.

(** ** Strings *)

Lemma eqb_refl (a : jsstring) : JsString.eqb a a = true.
Proof.
  induction a as [|x a IH]; simpl; [reflexivity|].
  now rewrite N.eqb_refl, IH.
Qed.

Lemma eqb_eq (a b : jsstring) : JsString.eqb a b = true <-> a = b.
Proof.
  split.
  - revert b; induction a as [|x a IH]; intros [|y b] H; simpl in H;
      try discriminate; [reflexivity|].
    apply andb_true_iff in H as [Hx Hr].
    apply N.eqb_eq in Hx. f_equal; auto.
  - intros ->. apply eqb_refl.
Qed.

Lemma truthy_cons (o : option jsstring) :
  truthy o = true <-> exists c r, o = Some (c :: r).
Proof.
  destruct o as [[|c r]|]; simpl; split; intros H; try discriminate; eauto;
    destruct H as (? & ? & H); discriminate.
Qed.

Lemma substring_prefix (s : jsstring) (n : Z) :
  (0 <= n)%Z -> substring s 0 n = firstn (Z.to_nat n) s.
Proof.
  intros Hn. unfold substring, clamp. simpl Z.to_nat at 1.
  rewrite Nat.min_0_l, Nat.min_0_l, Nat.max_0_l, Nat.sub_0_r. simpl skipn.
  destruct (Nat.le_ge_cases (Z.to_nat n) (length s)) as [H|H].
  - now rewrite Nat.min_l.
  - rewrite Nat.min_r by assumption.
    now rewrite !firstn_all2 by lia.
Qed.

(** ** The states of a file resource *)

Lemma state_is_eq (s : string) (fd : FileData) :
  state_is s fd = true <-> state fd = Some (lit s).
Proof.
  unfold state_is. destruct (state fd) as [st|].
  - rewrite eqb_eq. split; congruence.
  - split; discriminate.
Qed.

Lemma state_is_exclusive (s s' : string) (fd : FileData) :
  state_is s fd = true -> JsString.eqb (lit s) (lit s') = false ->
  state_is s' fd = false.
Proof.
  intros H Hne. apply state_is_eq in H. unfold state_is. now rewrite H.
Qed.

(** ** The computation monad *)

Lemma bind_ret {A B} (a : A) (k : A -> M B) : bind (ret a) k = k a.
Proof. unfold bind, ret. now destruct (k a). Qed.

Lemma bind_throw {A B} (e : exn) (k : A -> M B) : bind (throw e) k = throw e.
Proof. reflexivity. Qed.

Lemma bind_emit {B} (ev : event) (k : unit -> M B) :
  bind (emit ev) k = (ev :: trace (k tt), result (k tt)).
Proof. unfold bind, emit, trace, result. now destruct (k tt). Qed.

Lemma bind_report {B} (b : bool) (status : jsstring) (k : unit -> M B) :
  bind (report b status) k = (trace (report b status) ++ trace (k tt), result (k tt)).
Proof.
  unfold report. destruct b.
  - now rewrite bind_emit.
  - rewrite bind_ret. now destruct (k tt).
Qed.

Lemma bind_assoc {A B C} (m : M A) (k : A -> M B) (h : B -> M C) :
  bind (bind m k) h = bind m (fun a => bind (k a) h).
Proof.
  destruct m as [t [a| e |]]; simpl; try reflexivity.
  destruct (k a) as [t' [b| e |]]; simpl; try reflexivity.
  destruct (h b) as [t'' o]. now rewrite app_assoc.
Qed.

Lemma surjective_run {A} (m : M A) : m = (trace m, result m).
Proof. now destruct m. Qed.

Lemma getAiClient_present (w : World) :
  truthy (API_KEY w) = true ->
  exists key, getAiClient w = ret {| apiKey := key |}.
Proof.
  intros H. apply truthy_cons in H as (c & r & H).
  exists (c :: r). unfold getAiClient. now rewrite H.
Qed.

Lemma getAiClient_absent (w : World) :
  truthy (API_KEY w) = false -> getAiClient w = throw (Error msg_no_api_key).
Proof.
  unfold getAiClient, truthy. now destruct (API_KEY w) as [[|c r]|].
Qed.

(** ** The polling loop, one turn at a time *)

Lemma poll_settled gets b fd :
  state_is "PROCESSING" fd = false -> poll gets b fd = ret fd.
Proof. intros H. destruct gets; simpl; now rewrite H. Qed.

Lemma poll_blocked b fd :
  state_is "PROCESSING" fd = true ->
  poll [] b fd = (iteration_events b fd, Blocked).
Proof.
  intros H. simpl. rewrite H. now destruct b.
Qed.

Lemma poll_resolved g later b fd :
  state_is "PROCESSING" fd = true ->
  poll (Resolves g :: later) b fd =
    (iteration_events b fd ++ trace (poll later b (unwrap g)),
     result (poll later b (unwrap g))).
Proof.
  intros H. simpl. rewrite H.
  destruct (poll later b (unwrap g)) as [t o] eqn:E.
  destruct b, o; reflexivity.
Qed.

Lemma poll_rejected e later b fd :
  state_is "PROCESSING" fd = true ->
  poll (Rejects e :: later) b fd =
    (iteration_events b fd
       ++ ConsoleWarn (lit "Error polling file status, retrying...")
       :: trace (poll later b fd),
     result (poll later b fd)).
Proof.
  intros H. simpl. rewrite H.
  destruct (poll later b fd) as [t o] eqn:E.
  destruct b, o; reflexivity.
Qed.

Lemma uploadMediaFile_polls w f b r :
  truthy (API_KEY w) = true ->
  files_upload w = Resolves r ->
  truthy (name (unwrap r)) = true ->
  truthy (uri (unwrap r)) = true ->
  uploadMediaFile w f b =
    let p := poll (files_get w) b (unwrap r) in
    match result p with
    | Return fd =>
        if state_is "FAILED" fd then
          (upload_prefix f b ++ trace p ++ upload_failure, Throw (Error msg_processing_failed))
        else
          match uri fd with
          | Some (c :: u) =>
              (upload_prefix f b ++ trace p,
               Return {| uploaded_uri := c :: u;
                         uploaded_mimeType := or_else (mimeType fd) (file_type f) |})
          | _ => (upload_prefix f b ++ trace p ++ upload_failure, Throw (Error msg_missing_uri))
          end
    | Throw e => (upload_prefix f b ++ trace p ++ upload_failure, Throw e)
    | Blocked => (upload_prefix f b ++ trace p, Blocked)
    end.
Proof.
  intros Hkey Hup Hname Huri.
  destruct (getAiClient_present w Hkey) as [key Hc].
  unfold uploadMediaFile. rewrite Hc, bind_ret, Hup.
  unfold upload_prefix, upload_failure. cbv zeta.
  destruct (poll (files_get w) b (unwrap r)) as [t o] eqn:E.
  destruct b; cbn -[poll unwrap state_is truthy or_else lit];
    rewrite Hname, Huri; cbn -[poll unwrap state_is truthy or_else lit];
    rewrite E; cbn -[poll unwrap state_is truthy or_else lit];
    (destruct o as [fd|e|]; [destruct (state_is "FAILED" fd); [|destruct (uri fd) as [[|c u]|]] | |]);
    cbn -[lit or_else]; rewrite ?app_nil_r; reflexivity.
Qed.

Lemma poll_never_throws gets b fd e : result (poll gets b fd) <> Throw e.
Proof.
  revert fd. induction gets as [|[g|e'] later IH]; intros fd;
    destruct (state_is "PROCESSING" fd) eqn:P;
    rewrite ?(poll_settled _ _ _ P), ?(poll_blocked _ _ P),
            ?(poll_resolved _ _ _ _ P), ?(poll_rejected _ _ _ _ P);
    simpl; try discriminate; apply IH.
Qed.

Lemma poll_returns_settled gets b fd fd' :
  result (poll gets b fd) = Return fd' -> state_is "PROCESSING" fd' = false.
Proof.
  revert fd. induction gets as [|[g|e'] later IH]; intros fd;
    destruct (state_is "PROCESSING" fd) eqn:P;
    rewrite ?(poll_settled _ _ _ P), ?(poll_blocked _ _ P),
            ?(poll_resolved _ _ _ _ P), ?(poll_rejected _ _ _ _ P);
    simpl; try discriminate; try apply IH; intros [= <-]; exact P.
Qed.

Lemma poll_blocked_inv gets b fd :
  result (poll gets b fd) = Blocked ->
  state_is "PROCESSING" fd = true /\ Forall still_processing gets.
Proof.
  revert fd. induction gets as [|[g|e'] later IH]; intros fd;
    destruct (state_is "PROCESSING" fd) eqn:P;
    rewrite ?(poll_settled _ _ _ P), ?(poll_blocked _ _ P),
            ?(poll_resolved _ _ _ _ P), ?(poll_rejected _ _ _ _ P);
    simpl; try discriminate; intros H; split; auto.
  - destruct (IH _ H). constructor; assumption.
  - destruct (IH _ H). constructor; simpl; auto.
Qed.

Lemma poll_returns_observed gets b fd fd' :
  result (poll gets b fd) = Return fd' ->
  fd' = fd \/ exists g, In (Resolves g) gets /\ fd' = unwrap g.
Proof.
  revert fd. induction gets as [|[g|e'] later IH]; intros fd;
    destruct (state_is "PROCESSING" fd) eqn:P;
    rewrite ?(poll_settled _ _ _ P), ?(poll_blocked _ _ P),
            ?(poll_resolved _ _ _ _ P), ?(poll_rejected _ _ _ _ P);
    simpl; try discriminate; try (intros [= <-]; now left); intros H.
  - destruct (IH _ H) as [->|(g' & Hin & ->)]; right; eauto.
  - destruct (IH _ H) as [->|(g' & Hin & ->)]; [now left|right; eauto].
Qed.

(** A run that has ended is not changed by answers that come later in the
    script: [Blocked] is the only outcome that depends on where the script
    stops. *)
Lemma poll_extend gets more b fd :
  result (poll gets b fd) <> Blocked ->
  poll (gets ++ more) b fd = poll gets b fd.
Proof.
  revert fd. induction gets as [|[g|e] later IH]; intros fd H;
    destruct (state_is "PROCESSING" fd) eqn:P; simpl app.
  - rewrite (poll_blocked _ _ P) in H. now elim H.
  - now rewrite !(poll_settled _ _ _ P).
  - rewrite (poll_resolved _ _ _ _ P) in H. cbn [result snd] in H.
    now rewrite !(poll_resolved _ _ _ _ P), (IH _ H).
  - now rewrite !(poll_settled _ _ _ P).
  - rewrite (poll_rejected _ _ _ _ P) in H. cbn [result snd] in H.
    now rewrite !(poll_rejected _ _ _ _ P), (IH _ H).
  - now rewrite !(poll_settled _ _ _ P).
Qed.

(** ** Counting waits and fetches *)

Lemma sleeps_app t t' : sleeps (t ++ t') = sleeps t ++ sleeps t'.
Proof.
  induction t as [|ev t IH]; simpl; [reflexivity|].
  destruct ev; simpl; now rewrite IH.
Qed.

Lemma fetches_app t t' : fetches (t ++ t') = fetches t + fetches t'.
Proof.
  induction t as [|ev t IH]; simpl; [reflexivity|].
  destruct ev; simpl; now rewrite IH.
Qed.

Lemma warnings_app t t' : warnings (t ++ t') = warnings t + warnings t'.
Proof.
  induction t as [|ev t IH]; simpl; [reflexivity|].
  destruct ev; simpl; now rewrite IH.
Qed.

Lemma iteration_counts b fd :
  sleeps (iteration_events b fd) = [poll_interval]
  /\ fetches (iteration_events b fd) = 1
  /\ warnings (iteration_events b fd) = 0.
Proof. now destruct b. Qed.

Lemma upload_prefix_counts f b :
  sleeps (upload_prefix f b) = [] /\ fetches (upload_prefix f b) = 0
  /\ warnings (upload_prefix f b) = 0.
Proof. now destruct b. Qed.

(** Any number of rejected fetches followed by a settled answer. *)
Lemma poll_retries (es : list exn) g more b fd :
  state_is "PROCESSING" fd = true ->
  state_is "PROCESSING" (unwrap g) = false ->
  let p := poll (map Rejects es ++ Resolves g :: more) b fd in
  result p = Return (unwrap g)
  /\ sleeps (trace p) = repeat poll_interval (S (length es))
  /\ fetches (trace p) = S (length es)
  /\ warnings (trace p) = length es.
Proof.
  intros P Q. induction es as [|e es IH]; cbn zeta in *.
  - simpl app. rewrite (poll_resolved _ _ _ _ P), (poll_settled _ _ _ Q).
    simpl. rewrite app_nil_r. destruct (iteration_counts b fd) as (-> & -> & ->).
    auto.
  - simpl app. rewrite (poll_rejected _ _ _ _ P).
    destruct IH as (R & S1 & F & W). simpl trace. simpl result.
    rewrite sleeps_app, fetches_app, warnings_app.
    destruct (iteration_counts b fd) as (-> & -> & ->).
    simpl. rewrite S1, F, W. auto.
Qed.

(** ** Ingestion: [uploadMediaFile] *)

Lemma uploadMediaFile_no_key w f b :
  truthy (API_KEY w) = false ->
  uploadMediaFile w f b = ([], Throw (Error msg_no_api_key)).
Proof.
  intros H. apply getAiClient_absent in H.
  unfold uploadMediaFile. now rewrite H, bind_throw.
Qed.

Lemma analyzeMeetingMedia_no_key w f b :
  truthy (API_KEY w) = false ->
  analyzeMeetingMedia w f b = ([], Throw (Error msg_no_api_key)).
Proof.
  intros H. apply getAiClient_absent in H.
  unfold analyzeMeetingMedia. now rewrite H, bind_throw.
Qed.

Lemma uploadMediaFile_invalid w f b r :
  truthy (API_KEY w) = true ->
  files_upload w = Resolves r ->
  truthy (name (unwrap r)) = false \/ truthy (uri (unwrap r)) = false ->
  uploadMediaFile w f b =
    (upload_prefix f b ++ ConsoleError (lit "Invalid upload response:") :: upload_failure,
     Throw (Error msg_invalid_upload)).
Proof.
  intros Hkey Hup Hbad.
  destruct (getAiClient_present w Hkey) as [key Hc].
  unfold uploadMediaFile. rewrite Hc, bind_ret, Hup.
  assert (C : negb (truthy (name (unwrap r))) || negb (truthy (uri (unwrap r))) = true).
  { destruct Hbad as [-> | ->]; simpl; auto using orb_true_r. }
  unfold upload_prefix, upload_failure.
  destruct b; cbn -[poll unwrap truthy lit]; rewrite C; reflexivity.
Qed.


(** C9. With no API key in the process configuration (absent or empty),
    every public operation, and the upload helper, throws "API Key not
    found" having performed no event at all, so before any remote request.
    The key is read from the [World] of the call: the check is made by each
    invocation, there is no client built once and kept. *)
Theorem missing_api_key_stops_every_operation
    (w : World) (f : File) (b : bool) (history : list (jsstring * jsstring))
    (newMessage contextData q : jsstring) :
  truthy (API_KEY w) = false ->
  uploadMediaFile w f b = ([], Throw (Error msg_no_api_key))
  /\ analyzeMeetingMedia w f b = ([], Throw (Error msg_no_api_key))
  /\ chatWithMeetingContext w history newMessage contextData
     = ([], Throw (Error msg_no_api_key))
  /\ researchTopic w q = ([], Throw (Error msg_no_api_key))
  /\ analyzeUploadedImage w f = ([], Throw (Error msg_no_api_key)).
Proof.
  intros H. split; [now apply uploadMediaFile_no_key|].
  split; [now apply analyzeMeetingMedia_no_key|].
  apply getAiClient_absent in H.
  unfold chatWithMeetingContext, researchTopic, analyzeUploadedImage.
  rewrite H, !bind_throw. repeat split.
Qed.

Lemma missing_api_key_witness :
  truthy (API_KEY no_key_world) = false
  /\ uploadMediaFile no_key_world clip true = ([], Throw (Error msg_no_api_key))
  /\ analyzeMeetingMedia no_key_world clip true = ([], Throw (Error msg_no_api_key))
  /\ chatWithMeetingContext no_key_world [] (lit "Who spoke?") (lit "{}")
     = ([], Throw (Error msg_no_api_key))
  /\ researchTopic no_key_world (lit "rocq") = ([], Throw (Error msg_no_api_key))
  /\ analyzeUploadedImage no_key_world clip = ([], Throw (Error msg_no_api_key)).
Proof.
  split; [reflexivity|].
  apply (missing_api_key_stops_every_operation no_key_world clip true []
           (lit "Who spoke?") (lit "{}") (lit "rocq")).
  reflexivity.
Defined.

(** C7. An upload answer without identifier or without URI makes
    [uploadMediaFile] throw "Upload failed: Invalid response from Gemini
    API." at once: no status fetch and no wait come before the throw. *)
Theorem invalid_upload_response_aborts (w : World) (f : File) (b : bool) (r : Envelope) :
  truthy (API_KEY w) = true ->
  files_upload w = Resolves r ->
  truthy (name (unwrap r)) = false \/ truthy (uri (unwrap r)) = false ->
  uploadMediaFile w f b =
    (upload_prefix f b ++ ConsoleError (lit "Invalid upload response:") :: upload_failure,
     Throw (Error msg_invalid_upload))
  /\ fetches (trace (uploadMediaFile w f b)) = 0
  /\ sleeps (trace (uploadMediaFile w f b)) = [].
Proof.
  intros Hkey Hup Hbad.
  pose proof (uploadMediaFile_invalid w f b r Hkey Hup Hbad) as E.
  rewrite E. simpl trace. rewrite sleeps_app, fetches_app.
  destruct (upload_prefix_counts f b) as (-> & -> & _). auto.
Qed.

Lemma invalid_upload_response_witness :
  uploadMediaFile no_uri_world clip false =
    ([FilesUpload (lit "standup.mp4") (lit "video/mp4");
      ConsoleError (lit "Invalid upload response:");
      ConsoleError (lit "Media upload error:")],
     Throw (Error msg_invalid_upload))
  /\ fetches (trace (uploadMediaFile no_uri_world clip false)) = 0
  /\ sleeps (trace (uploadMediaFile no_uri_world clip false)) = [].
Proof.
  apply (invalid_upload_response_aborts no_uri_world clip false
           (direct {| name := Some (lit "files/a"); uri := None;
                      mimeType := None; state := Some (lit "PROCESSING") |})).
  - reflexivity.
  - reflexivity.
  - right. reflexivity.
Defined.

(** C5. When the upload answers PROCESSING, the first status fetch answers
    PROCESSING and the second answers ACTIVE (with a URI), [uploadMediaFile]
    waits exactly twice, 2000 ms each time, fetches the status exactly
    twice, and returns the handle of the second fetch: the third status the
    loop examines. *)
Theorem processing_processing_active
    (w : World) (f : File) (b : bool) (up g1 g2 : Envelope)
    (more : list (reply Envelope)) :
  truthy (API_KEY w) = true ->
  files_upload w = Resolves up ->
  files_get w = Resolves g1 :: Resolves g2 :: more ->
  truthy (name (unwrap up)) = true ->
  truthy (uri (unwrap up)) = true ->
  state_is "PROCESSING" (unwrap up) = true ->
  state_is "PROCESSING" (unwrap g1) = true ->
  state_is "ACTIVE" (unwrap g2) = true ->
  truthy (uri (unwrap g2)) = true ->
  result (poll (files_get w) b (unwrap up)) = Return (unwrap g2)
  /\ (exists u,
        uri (unwrap g2) = Some u
        /\ result (uploadMediaFile w f b) =
             Return {| uploaded_uri := u;
                       uploaded_mimeType := or_else (mimeType (unwrap g2)) (file_type f) |})
  /\ sleeps (trace (uploadMediaFile w f b)) = [2000%Z; 2000%Z]
  /\ fetches (trace (uploadMediaFile w f b)) = 2.
Proof.
  intros Hkey Hup Hget Hname Huri P0 P1 A2 U2.
  assert (Q2 : state_is "PROCESSING" (unwrap g2) = false)
    by (apply (state_is_exclusive _ _ _ A2); reflexivity).
  assert (F2 : state_is "FAILED" (unwrap g2) = false)
    by (apply (state_is_exclusive _ _ _ A2); reflexivity).
  assert (Hp : poll (files_get w) b (unwrap up) =
               (iteration_events b (unwrap up) ++ iteration_events b (unwrap g1),
                Return (unwrap g2))).
  { rewrite Hget, (poll_resolved _ _ _ _ P0), (poll_resolved _ _ _ _ P1),
      (poll_settled _ _ _ Q2). simpl. now rewrite app_nil_r. }
  apply truthy_cons in U2 as (c & u & U2).
  assert (E : uploadMediaFile w f b =
    (upload_prefix f b ++ iteration_events b (unwrap up) ++ iteration_events b (unwrap g1),
     Return {| uploaded_uri := c :: u;
               uploaded_mimeType := or_else (mimeType (unwrap g2)) (file_type f) |})).
  { rewrite (uploadMediaFile_polls w f b up Hkey Hup Hname Huri). cbv zeta.
    rewrite Hp. cbn [trace result fst snd]. now rewrite F2, U2. }
  rewrite Hp, E. cbn [trace result fst snd].
  split; [reflexivity|]. split; [eauto|].
  rewrite !sleeps_app, !fetches_app.
  destruct (upload_prefix_counts f b) as (-> & -> & _).
  destruct (iteration_counts b (unwrap up)) as (-> & -> & _).
  destruct (iteration_counts b (unwrap g1)) as (-> & -> & _).
  auto.
Qed.

Lemma processing_processing_active_witness :
  result (uploadMediaFile slow_world clip true) =
    Return {| uploaded_uri := lit "https://g/files/a"; uploaded_mimeType := lit "video/mp4" |}
  /\ sleeps (trace (uploadMediaFile slow_world clip true)) = [2000%Z; 2000%Z]
  /\ fetches (trace (uploadMediaFile slow_world clip true)) = 2.
Proof.
  pose proof (processing_processing_active slow_world clip true
                (direct (handle "files/a" "https://g/files/a" (Some (lit "PROCESSING"))))
                (direct (handle "files/a" "https://g/files/a" (Some (lit "PROCESSING"))))
                (direct (handle "files/a" "https://g/files/a" (Some (lit "ACTIVE"))))
                [] eq_refl eq_refl eq_refl eq_refl eq_refl eq_refl eq_refl eq_refl eq_refl)
    as (_ & (u & Hu & Hr) & Hs & Hf).
  injection Hu as <-. auto.
Defined.

(** C6. A status fetch that fails does not abort the ingestion.  In any
    turn of the loop whose fetch is rejected, a warning is logged and the
    loop goes on to the next turn with the handle it already had (first
    part).  Hence, when the upload answers PROCESSING and the fetches fail
    any number of times before one answers ACTIVE with a URI,
    [uploadMediaFile] returns that handle's URI, having logged one warning
    and waited once per failed fetch, and once more for the fetch that
    succeeded. *)
Theorem transient_fetch_error_is_retried
    (w : World) (f : File) (b : bool) (up g : Envelope) (es : list exn)
    (more : list (reply Envelope)) :
  truthy (API_KEY w) = true ->
  files_upload w = Resolves up ->
  files_get w = map Rejects es ++ Resolves g :: more ->
  truthy (name (unwrap up)) = true ->
  truthy (uri (unwrap up)) = true ->
  state_is "PROCESSING" (unwrap up) = true ->
  state_is "ACTIVE" (unwrap g) = true ->
  truthy (uri (unwrap g)) = true ->
  (forall e later fd,
      state_is "PROCESSING" fd = true ->
      poll (Rejects e :: later) b fd =
        (iteration_events b fd
           ++ ConsoleWarn (lit "Error polling file status, retrying...")
           :: trace (poll later b fd),
         result (poll later b fd)))
  /\ result (poll (files_get w) b (unwrap up)) = Return (unwrap g)
  /\ (exists u,
        uri (unwrap g) = Some u
        /\ result (uploadMediaFile w f b) =
             Return {| uploaded_uri := u;
                       uploaded_mimeType := or_else (mimeType (unwrap g)) (file_type f) |})
  /\ warnings (trace (uploadMediaFile w f b)) = length es
  /\ sleeps (trace (uploadMediaFile w f b)) = repeat 2000%Z (S (length es))
  /\ fetches (trace (uploadMediaFile w f b)) = S (length es).
Proof.
  intros Hkey Hup Hget Hname Huri P0 A U.
  split; [intros e later fd P; apply (poll_rejected _ _ _ _ P)|].
  assert (Q : state_is "PROCESSING" (unwrap g) = false)
    by (apply (state_is_exclusive _ _ _ A); reflexivity).
  assert (F : state_is "FAILED" (unwrap g) = false)
    by (apply (state_is_exclusive _ _ _ A); reflexivity).
  destruct (poll_retries es g more b (unwrap up) P0 Q) as (Hr & Hs & Hf & Hw).
  rewrite <- Hget in Hr, Hs, Hf, Hw.
  apply truthy_cons in U as (c & u & U).
  assert (E : uploadMediaFile w f b =
    (upload_prefix f b ++ trace (poll (files_get w) b (unwrap up)),
     Return {| uploaded_uri := c :: u;
               uploaded_mimeType := or_else (mimeType (unwrap g)) (file_type f) |})).
  { rewrite (uploadMediaFile_polls w f b up Hkey Hup Hname Huri). cbv zeta.
    rewrite Hr. now rewrite F, U. }
  rewrite E. cbn [trace result fst snd].
  split; [exact Hr|]. split; [eauto|].
  rewrite warnings_app, sleeps_app, fetches_app.
  destruct (upload_prefix_counts f b) as (-> & -> & ->).
  fold (trace (poll (files_get w) b (unwrap up))).
  rewrite Hs, Hf, Hw. auto.
Qed.

Lemma transient_fetch_error_witness :
  result (uploadMediaFile flaky_world clip false) =
    Return {| uploaded_uri := lit "https://g/files/a"; uploaded_mimeType := lit "video/mp4" |}
  /\ warnings (trace (uploadMediaFile flaky_world clip false)) = 1
  /\ sleeps (trace (uploadMediaFile flaky_world clip false)) = [2000%Z; 2000%Z]
  /\ fetches (trace (uploadMediaFile flaky_world clip false)) = 2.
Proof.
  pose proof (transient_fetch_error_is_retried flaky_world clip false
                (direct (handle "files/a" "https://g/files/a" (Some (lit "PROCESSING"))))
                (direct (handle "files/a" "https://g/files/a" (Some (lit "ACTIVE"))))
                [Rejection (lit "503")] []
                eq_refl eq_refl eq_refl eq_refl eq_refl eq_refl eq_refl eq_refl)
    as (_ & _ & (u & Hu & Hr) & Hw & Hs & Hf).
  injection Hu as <-. auto.
Defined.

Lemma uploadMediaFile_rejected w f b e :
  truthy (API_KEY w) = true ->
  files_upload w = Rejects e ->
  uploadMediaFile w f b = (upload_prefix f b ++ upload_failure, Throw e).
Proof.
  intros Hkey Hup. destruct (getAiClient_present w Hkey) as [key Hc].
  unfold uploadMediaFile. rewrite Hc, bind_ret, Hup.
  now destruct b.
Qed.

(** The ways [uploadMediaFile] can end, whatever the remote service
    answers.
    - It returns: then the loop ended on a handle, the one of the upload
      answer or of a status fetch, whose state is neither PROCESSING nor
      FAILED, and the URI returned is that handle's URI and is not empty.
      When the state of that handle is one of the three lifecycle states,
      it is ACTIVE.
    - It throws: the error is "API Key not found", what the upload call
      rejected with, "Upload failed: Invalid response from Gemini API.",
      "File processing failed on Gemini servers." or "File processing
      incomplete: Missing URI.".
    - It is still polling: the upload and every status fetched so far said
      PROCESSING (or the fetch failed). *)
Lemma uploadMediaFile_outcomes (w : World) (f : File) (b : bool) :
  match result (uploadMediaFile w f b) with
  | Return up =>
      exists r fd,
        files_upload w = Resolves r
        /\ result (poll (files_get w) b (unwrap r)) = Return fd
        /\ (fd = unwrap r \/ exists g, In (Resolves g) (files_get w) /\ fd = unwrap g)
        /\ state_is "PROCESSING" fd = false
        /\ state_is "FAILED" fd = false
        /\ uri fd = Some (uploaded_uri up)
        /\ uploaded_uri up <> []
        /\ (lifecycle fd -> state_is "ACTIVE" fd = true)
  | Throw e =>
      e = Error msg_no_api_key
      \/ files_upload w = Rejects e
      \/ e = Error msg_invalid_upload
      \/ e = Error msg_processing_failed
      \/ e = Error msg_missing_uri
  | Blocked =>
      exists r,
        files_upload w = Resolves r
        /\ state_is "PROCESSING" (unwrap r) = true
        /\ Forall still_processing (files_get w)
  end.
Proof.
  destruct (truthy (API_KEY w)) eqn:Hkey.
  2:{ rewrite (uploadMediaFile_no_key w f b Hkey). now left. }
  destruct (files_upload w) as [r|e] eqn:Hup.
  2:{ rewrite (uploadMediaFile_rejected w f b e Hkey Hup). right. now left. }
  destruct (truthy (name (unwrap r))) eqn:Hname.
  2:{ rewrite (uploadMediaFile_invalid w f b r Hkey Hup (or_introl Hname)).
      simpl. auto. }
  destruct (truthy (uri (unwrap r))) eqn:Huri.
  2:{ rewrite (uploadMediaFile_invalid w f b r Hkey Hup (or_intror Huri)).
      simpl. auto. }
  rewrite (uploadMediaFile_polls w f b r Hkey Hup Hname Huri). cbv zeta.
  destruct (result (poll (files_get w) b (unwrap r))) as [fd|e|] eqn:Hp.
  - destruct (state_is "FAILED" fd) eqn:F; [simpl; auto|].
    destruct (uri fd) as [[|c u]|] eqn:U; cbn [result snd]; auto 6.
    exists r, fd. pose proof (poll_returns_settled _ _ _ _ Hp) as P.
    pose proof (poll_returns_observed _ _ _ _ Hp) as O.
    repeat split; auto; try discriminate.
    intros [L|[L|L]]; apply state_is_eq in L; congruence.
  - now apply poll_never_throws in Hp.
  - cbn [result snd]. exists r. destruct (poll_blocked_inv _ _ _ Hp). auto.
Qed.

(** The code never compares a state with "ACTIVE": it leaves the loop on
    any state other than PROCESSING and fails on FAILED only.  An answer
    without a state, which the data model does not contain, is therefore
    returned as it is; the hypotheses of the next theorem are what keeps
    such answers out. *)
Lemma upload_answer_without_state_is_returned :
  result (uploadMediaFile stateless_world clip false) =
    Return {| uploaded_uri := lit "https://g/files/a"; uploaded_mimeType := lit "video/mp4" |}
  /\ state_is "ACTIVE" (handle "files/a" "https://g/files/a" None) = false
  /\ ~ in_lifecycle (files_upload stateless_world).
Proof.
  repeat split. intros [H|[H|H]]; discriminate H.
Qed.

(** C2.  For answers of the remote service within the data model (every
    handle the upload or a status fetch answers with is in state PROCESSING,
    ACTIVE or FAILED), [uploadMediaFile] ends in one of three ways.
    - It returns: then the loop ended on a handle, the one of the upload
      answer or of a status fetch, whose state is ACTIVE (so neither
      PROCESSING nor FAILED), and the URI returned is that handle's URI and
      is not empty.
    - It throws: the error is "API Key not found", what the upload call
      rejected with, "Upload failed: Invalid response from Gemini API.",
      "File processing failed on Gemini servers." or "File processing
      incomplete: Missing URI.".
    - It has neither returned nor thrown: then the upload and every status
      fetched so far said PROCESSING (or the fetch failed), so it ends as
      soon as one status fetched says ACTIVE or FAILED. *)
Theorem ingest_returns_active_or_throws (w : World) (f : File) (b : bool) :
  in_lifecycle (files_upload w) ->
  Forall in_lifecycle (files_get w) ->
  match result (uploadMediaFile w f b) with
  | Return up =>
      exists r fd,
        files_upload w = Resolves r
        /\ result (poll (files_get w) b (unwrap r)) = Return fd
        /\ (fd = unwrap r \/ exists g, In (Resolves g) (files_get w) /\ fd = unwrap g)
        /\ state_is "ACTIVE" fd = true
        /\ state_is "PROCESSING" fd = false
        /\ state_is "FAILED" fd = false
        /\ uri fd = Some (uploaded_uri up)
        /\ uploaded_uri up <> []
  | Throw e =>
      e = Error msg_no_api_key
      \/ files_upload w = Rejects e
      \/ e = Error msg_invalid_upload
      \/ e = Error msg_processing_failed
      \/ e = Error msg_missing_uri
  | Blocked =>
      exists r,
        files_upload w = Resolves r
        /\ state_is "PROCESSING" (unwrap r) = true
        /\ Forall still_processing (files_get w)
  end.
Proof.
  intros Hup Hgets. pose proof (uploadMediaFile_outcomes w f b) as H.
  destruct (result (uploadMediaFile w f b)) as [up|e|]; auto.
  destruct H as (r & fd & Hr & Hp & Hobs & P & F & U & N & L).
  exists r, fd.
  assert (Hfd : lifecycle fd).
  { destruct Hobs as [->|(g & Hin & ->)].
    - rewrite Hr in Hup. exact Hup.
    - rewrite Forall_forall in Hgets. exact (Hgets _ Hin). }
  repeat split; auto.
Qed.

Lemma ingest_returns_active_or_throws_witness :
  exists r fd,
    files_upload slow_world = Resolves r
    /\ result (poll (files_get slow_world) true (unwrap r)) = Return fd
    /\ (fd = unwrap r \/ exists g, In (Resolves g) (files_get slow_world) /\ fd = unwrap g)
    /\ state_is "ACTIVE" fd = true
    /\ state_is "PROCESSING" fd = false
    /\ state_is "FAILED" fd = false
    /\ uri fd = Some (lit "https://g/files/a")
    /\ lit "https://g/files/a" <> [].
Proof.
  refine (ingest_returns_active_or_throws slow_world clip true _ _).
  - left. reflexivity.
  - constructor; [left; reflexivity|].
    constructor; [right; left; reflexivity|]. constructor.
Defined.

(** ** [JSON.parse]: every step consumes input, so the fuel suffices *)

Lemma skip_ws_length s : length (skip_ws s) <= length s.
Proof.
  induction s as [|c r IH]; simpl; [lia|].
  destruct (is_ws c); simpl; lia.
Qed.

Lemma take_digits_length s ds r :
  take_digits s = (ds, r) -> length r <= length s.
Proof.
  revert ds r. induction s as [|c s IH]; simpl; intros ds r H.
  - injection H as <- <-. simpl. lia.
  - destruct (is_digit c).
    + destruct (take_digits s) as [ds' r'] eqn:E. injection H as <- <-.
      specialize (IH _ _ eq_refl). lia.
    + injection H as <- <-. simpl. lia.
Qed.

Lemma strip_prefix_length p s r :
  strip_prefix p s = Some r -> length r <= length s.
Proof.
  revert s. induction p as [|x p IH]; intros [|y s] H; simpl in H;
    try discriminate.
  - injection H as <-. lia.
  - injection H as <-. lia.
  - destruct (N.eqb x y); [|discriminate]. apply IH in H. simpl. lia.
Qed.

Lemma parse_chars_length s str r :
  parse_chars s = Some (str, r) -> length r < length s.
Proof.
  remember (length s) as n eqn:Hn. revert s str r Hn.
  induction n as [n IH] using lt_wf_ind. intros s str r -> H.
  destruct s as [|c s]; simpl in H; [discriminate|].
  destruct (is_quote c).
  { injection H as <- <-. simpl. lia. }
  destruct (is_char "\" c).
  - destruct s as [|e s1]; [discriminate|].
    destruct (simple_escape e).
    + destruct (parse_chars s1) as [[str' r']|] eqn:E; [|discriminate].
      injection H as <- <-.
      apply (IH (length s1)) in E; simpl; auto; lia.
    + destruct (is_char "u" e); [|discriminate].
      destruct s1 as [|h1 [|h2 [|h3 [|h4 s2]]]]; try discriminate.
      destruct (hex4 h1 h2 h3 h4); [|discriminate].
      destruct (parse_chars s2) as [[str' r']|] eqn:E; [|discriminate].
      injection H as <- <-.
      apply (IH (length s2)) in E; simpl; auto; lia.
  - destruct (N.ltb c 32); [discriminate|].
    destruct (parse_chars s) as [[str' r']|] eqn:E; [|discriminate].
    injection H as <- <-.
    apply (IH (length s)) in E; simpl; auto; lia.
Qed.

Lemma parse_int_length s i r : parse_int s = Some (i, r) -> length r < length s.
Proof.
  destruct s as [|c s]; simpl; [discriminate|].
  destruct (is_char "0" c).
  - intros [= <- <-]. simpl. lia.
  - destruct (is_digit c); [|discriminate].
    destruct (take_digits s) as [ds r'] eqn:E. intros [= <- <-].
    apply take_digits_length in E. simpl. lia.
Qed.

Lemma parse_frac_length s x r : parse_frac s = Some (x, r) -> length r <= length s.
Proof.
  destruct s as [|c s]; simpl.
  - intros [= <- <-]. simpl. lia.
  - destruct (is_char "." c).
    + destruct (take_digits s) as [[|d ds] r'] eqn:E; [discriminate|].
      intros [= <- <-]. apply take_digits_length in E. simpl. lia.
    + intros [= <- <-]. simpl. lia.
Qed.

Lemma parse_exp_length s x r : parse_exp s = Some (x, r) -> length r <= length s.
Proof.
  destruct s as [|c s]; simpl.
  - intros [= <- <-]. simpl. lia.
  - destruct (is_char "e" c || is_char "E" c).
    + destruct s as [|g s'].
      * simpl. discriminate.
      * destruct (is_char "+" g || is_char "-" g).
        -- destruct (take_digits s') as [[|d ds] r'] eqn:E; [discriminate|].
           intros [= <- <-]. apply take_digits_length in E. simpl. lia.
        -- destruct (take_digits (g :: s')) as [[|d ds] r'] eqn:E; [discriminate|].
           intros [= <- <-]. apply take_digits_length in E. simpl in *. lia.
    + intros [= <- <-]. simpl. lia.
Qed.

Lemma parse_number_length s l r :
  parse_number s = Some (l, r) -> length r < length s.
Proof.
  unfold parse_number.
  destruct (match s with
            | [] => ([], [])
            | c :: r0 => if is_char "-" c then ([c], r0) else ([], s)
            end) as [sign s1] eqn:Es.
  assert (L1 : length s1 <= length s).
  { destruct s as [|c s']; [injection Es as <- <-; simpl; lia|].
    destruct (is_char "-" c); injection Es as <- <-; simpl; lia. }
  destruct (parse_int s1) as [[i s2]|] eqn:Ei; [|discriminate].
  destruct (parse_frac s2) as [[fr s3]|] eqn:Ef; [|discriminate].
  destruct (parse_exp s3) as [[ex s4]|] eqn:Ee; [|discriminate].
  intros [= <- <-].
  apply parse_int_length in Ei. apply parse_frac_length in Ef.
  apply parse_exp_length in Ee. lia.
Qed.

Lemma skip_ws_cons s c r : skip_ws s = c :: r -> S (length r) <= length s.
Proof. intros H. pose proof (skip_ws_length s) as L. rewrite H in L. exact L. Qed.

Lemma parse_literal_length word v s v' r :
  parse_literal word v s = Parsed v' r -> length r <= length s.
Proof.
  unfold parse_literal.
  destruct (strip_prefix (lit word) s) as [rest|] eqn:E; [|discriminate].
  intros [= _ <-]. now apply strip_prefix_length in E.
Qed.

(** Case analysis on the scrutinees of the parser, recording what each
    consumed. *)
Ltac parser_case :=
  match goal with
  | H : context [match skip_ws ?s with _ => _ end] |- _ =>
      let E := fresh "Ews" in
      destruct (skip_ws s) eqn:E; [|apply skip_ws_cons in E]
  | H : context [if is_char ?a ?c then _ else _] |- _ => destruct (is_char a c)
  | H : context [if is_quote ?c then _ else _] |- _ => destruct (is_quote c)
  | H : context [match parse_chars ?s with _ => _ end] |- _ =>
      let E := fresh "Estr" in
      destruct (parse_chars s) as [[? ?]|] eqn:E; [apply parse_chars_length in E|]
  | H : context [match parse_number ?s with _ => _ end] |- _ =>
      let E := fresh "Enum" in
      destruct (parse_number s) as [[? ?]|] eqn:E; [apply parse_number_length in E|]
  | H : parse_literal _ _ _ = Parsed _ _ |- _ => apply parse_literal_length in H
  | H : Parsed _ _ = Parsed _ _ |- _ => injection H as <- <-
  | H : SyntaxError = Parsed _ _ |- _ => discriminate H
  | H : OutOfFuel = Parsed _ _ |- _ => discriminate H
  end.

Lemma parse_consumes fuel :
  (forall s v r, parse_value fuel s = Parsed v r -> length r < length s)
  /\ (forall s acc v r, parse_elements fuel s acc = Parsed v r -> length r < length s)
  /\ (forall s acc v r, parse_members fuel s acc = Parsed v r -> length r < length s).
Proof.
  induction fuel as [|fuel (IHv & IHe & IHm)];
    [repeat split; intros; discriminate|].
  repeat split.
  - intros s v r H. simpl in H. repeat parser_case; simpl in *; try lia.
    + apply IHm in H. simpl in H. lia.
    + apply IHe in H. simpl in H. lia.
  - intros s acc v r H. simpl in H.
    destruct (parse_value fuel s) as [v' r'| |] eqn:Ev; try discriminate.
    apply IHv in Ev. repeat parser_case; simpl in *; try lia.
    apply IHe in H. lia.
  - intros s acc v r H. simpl in H. repeat parser_case; simpl in *; try lia.
    destruct (parse_value fuel _) as [v' r'| |] eqn:Ev; try discriminate.
    apply IHv in Ev. repeat parser_case; simpl in *; try lia.
    apply IHm in H. lia.
Qed.

Ltac fuel_case :=
  match goal with
  | H : context [match skip_ws ?s with _ => _ end] |- _ =>
      let E := fresh "Ews" in
      destruct (skip_ws s) eqn:E; [|apply skip_ws_cons in E]
  | H : context [if is_char ?a ?c then _ else _] |- _ => destruct (is_char a c)
  | H : context [if is_quote ?c then _ else _] |- _ => destruct (is_quote c)
  | H : context [match parse_chars ?s with _ => _ end] |- _ =>
      let E := fresh "Estr" in
      destruct (parse_chars s) as [[? ?]|] eqn:E; [apply parse_chars_length in E|]
  | H : context [match parse_number ?s with _ => _ end] |- _ =>
      destruct (parse_number s) as [[? ?]|]
  | H : parse_literal ?w ?v ?s = OutOfFuel |- _ =>
      unfold parse_literal in H; destruct (strip_prefix (lit w) s)
  | H : Parsed _ _ = OutOfFuel |- _ => discriminate H
  | H : SyntaxError = OutOfFuel |- _ => discriminate H
  end.

Lemma parse_has_fuel fuel :
  (forall s, 2 * length s + 1 <= fuel -> parse_value fuel s <> OutOfFuel)
  /\ (forall s acc, 2 * length s + 2 <= fuel -> parse_elements fuel s acc <> OutOfFuel)
  /\ (forall s acc, 2 * length s + 2 <= fuel -> parse_members fuel s acc <> OutOfFuel).
Proof.
  induction fuel as [|fuel (IHv & IHe & IHm)];
    [repeat split; intros; lia|].
  destruct (parse_consumes fuel) as (Cv & _ & _).
  repeat split.
  - intros s L H. simpl in H. repeat fuel_case.
    + revert H. apply IHm. simpl in *. lia.
    + revert H. apply IHe. simpl in *. lia.
  - intros s acc L H. simpl in H.
    destruct (parse_value fuel s) as [v' r'| |] eqn:Ev; try discriminate.
    + apply Cv in Ev. repeat fuel_case.
      revert H. apply IHe. simpl in *. lia.
    + revert Ev. apply IHv. lia.
  - intros s acc L H. simpl in H. repeat fuel_case.
    destruct (parse_value fuel _) as [v' r'| |] eqn:Ev; try discriminate.
    + apply Cv in Ev. repeat fuel_case.
      revert H. apply IHm. simpl in *. lia.
    + revert Ev. apply IHv. simpl in *. lia.
Qed.

Lemma parse_value_fuel text : parse_value (fuel_for text) text <> OutOfFuel.
Proof. apply (parse_has_fuel (fuel_for text)). unfold fuel_for. lia. Qed.

Ltac mono_case :=
  match goal with
  | |- context [match skip_ws ?s with _ => _ end] => destruct (skip_ws s)
  | |- context [if is_char ?a ?c then _ else _] => destruct (is_char a c)
  | |- context [if is_quote ?c then _ else _] => destruct (is_quote c)
  | |- context [match parse_chars ?s with _ => _ end] =>
      destruct (parse_chars s) as [[? ?]|]
  | |- context [match parse_number ?s with _ => _ end] =>
      destruct (parse_number s) as [[? ?]|]
  end.

(** More fuel never changes an answer. *)
Lemma parse_fuel_mono fuel :
  forall fuel', fuel <= fuel' ->
  (forall s, parse_value fuel s <> OutOfFuel -> parse_value fuel' s = parse_value fuel s)
  /\ (forall s acc, parse_elements fuel s acc <> OutOfFuel ->
        parse_elements fuel' s acc = parse_elements fuel s acc)
  /\ (forall s acc, parse_members fuel s acc <> OutOfFuel ->
        parse_members fuel' s acc = parse_members fuel s acc).
Proof.
  induction fuel as [|fuel IH]; intros fuel' L;
    [repeat split; intros; simpl in *; congruence|].
  destruct fuel' as [|fuel']; [lia|].
  destruct (IH fuel' ltac:(lia)) as (IHv & IHe & IHm).
  repeat split.
  - intros s H. simpl in *. repeat mono_case; auto.
  - intros s acc H. simpl in *.
    destruct (parse_value fuel s) as [v r| |] eqn:Ev;
      rewrite IHv by congruence; rewrite Ev; try congruence.
    repeat mono_case; auto.
  - intros s acc H. simpl in *. repeat mono_case; auto.
    destruct (parse_value fuel _) as [v r| |] eqn:Ev;
      rewrite IHv by congruence; rewrite Ev; try congruence.
    repeat mono_case; auto.
Qed.

Lemma JSON_parse_some text v :
  JSON_parse text = Some v <->
  exists rest, parse_value (fuel_for text) text = Parsed v rest /\ skip_ws rest = [].
Proof.
  unfold JSON_parse. split.
  - destruct (parse_value (fuel_for text) text) as [v' rest| |]; try discriminate.
    destruct (skip_ws rest) eqn:E; [|discriminate]. intros [= <-]. eauto.
  - intros (rest & -> & ->). reflexivity.
Qed.

(** [JSON_parse] yields no value only for a text that is not one JSON value
    surrounded by white space; never for want of fuel. *)
Lemma JSON_parse_none text :
  JSON_parse text = None <->
  parse_value (fuel_for text) text = SyntaxError
  \/ exists v rest c rest',
       parse_value (fuel_for text) text = Parsed v rest /\ skip_ws rest = c :: rest'.
Proof.
  unfold JSON_parse. pose proof (parse_value_fuel text) as F. split.
  - destruct (parse_value (fuel_for text) text) as [v' rest| |]; [|now left|congruence].
    destruct (skip_ws rest) as [|c rest'] eqn:E; [discriminate|].
    intros _. right. exists v', rest, c, rest'. auto.
  - intros [-> | (v' & rest & c & rest' & -> & ->)]; reflexivity.
Qed.

(** ** Analysis: [analyzeMeetingMedia] *)

Lemma analyzeMeetingMedia_cases w f b :
  analyzeMeetingMedia w f b =
    match uploadMediaFile w f b with
    | (t, Return up) =>
        match models_generateContent w with
        | Resolves resp =>
            match text resp with
            | Some (c :: r) =>
                match JSON_parse (c :: r) with
                | Some v => (t ++ analysis_events b up, Return v)
                | None =>
                    (t ++ analysis_events b up ++ [ConsoleError (lit "Failed to parse JSON")],
                     Throw (Error msg_parse_failed))
                end
            | _ => (t ++ analysis_events b up, Throw (Error msg_no_response))
            end
        | Rejects e => (t ++ analysis_events b up, Throw e)
        end
    | (t, Throw e) => (t, Throw e)
    | (t, Blocked) => (t, Blocked)
    end.
Proof.
  destruct (truthy (API_KEY w)) eqn:Hkey.
  2:{ rewrite (uploadMediaFile_no_key w f b Hkey), (analyzeMeetingMedia_no_key w f b Hkey).
      reflexivity. }
  destruct (getAiClient_present w Hkey) as [key Hc].
  unfold analyzeMeetingMedia. rewrite Hc, bind_ret.
  destruct (uploadMediaFile w f b) as [t [up|e|]]; try reflexivity.
  unfold analysis_events, JSON_parse_or_throw.
  destruct (models_generateContent w) as [resp|e]; [|destruct b; reflexivity].
  destruct b; cbn -[lit analysis_request JSON_parse];
    (destruct (text resp) as [[|c r]|]; [reflexivity| |reflexivity]);
    destruct (JSON_parse (c :: r)); cbn -[lit analysis_request];
    rewrite ?app_nil_r; try reflexivity.
Qed.

(** C1, as stated, fails: the answer text [{"title": "Weekly sync"}] is
    valid JSON, lacks the required [summary] (and four more required
    fields) and so does not conform to the response schema; yet
    [analyzeMeetingMedia] throws nothing and returns that partial object. *)
Lemma analyze_returns_partial_payload :
  JSON_parse (json_lit "{'title': 'Weekly sync'}") = Some partial_payload
  /\ has_prop (lit "summary") partial_payload = false
  /\ conforms responseSchema partial_payload = false
  /\ result (analyzeMeetingMedia partial_world clip false) = Return partial_payload.
Proof. vm_compute. repeat split. Qed.

(** C1, amended.  Once the media is uploaded and the analysis request has
    answered with a non-empty text, [analyzeMeetingMedia] throws "Failed
    to parse analysis results." exactly when the text is not valid JSON,
    and otherwise returns the parsed value, whole and unchanged: the text is
    not checked against the response schema. *)
Theorem analyze_rejects_only_unparsable_text
    (w : World) (f : File) (b : bool) (up : Uploaded)
    (resp : GenerateContentResponse) (t : jsstring) :
  result (uploadMediaFile w f b) = Return up ->
  models_generateContent w = Resolves resp ->
  text resp = Some t ->
  t <> [] ->
  result (analyzeMeetingMedia w f b) =
    match JSON_parse t with
    | Some v => Return v
    | None => Throw (Error msg_parse_failed)
    end.
Proof.
  intros Hup Hgen Htext Hne.
  rewrite analyzeMeetingMedia_cases.
  destruct (uploadMediaFile w f b) as [tr o]. simpl in Hup. subst o.
  rewrite Hgen, Htext. destruct t as [|c r]; [congruence|].
  now destruct (JSON_parse (c :: r)).
Qed.

Lemma analyze_rejects_only_unparsable_text_witness :
  result (analyzeMeetingMedia partial_world clip false) =
    match JSON_parse (json_lit "{'title': 'Weekly sync'}") with
    | Some v => Return v
    | None => Throw (Error msg_parse_failed)
    end.
Proof.
  apply (analyze_rejects_only_unparsable_text partial_world clip false
           {| uploaded_uri := lit "https://g/files/a"; uploaded_mimeType := lit "video/mp4" |}
           {| text := Some (json_lit "{'title': 'Weekly sync'}"); candidates := None |}
           (json_lit "{'title': 'Weekly sync'}")).
  - reflexivity.
  - reflexivity.
  - reflexivity.
  - discriminate.
Defined.

Lemma conforms_required (s : Schema) (v : value) :
  type s = OBJECT -> conforms s v = true ->
  Forall (fun k => has_prop k v = true) (required s).
Proof.
  intros T C. destruct v; simpl in C; rewrite T in C; try discriminate.
  apply andb_true_iff in C as [C _]. rewrite forallb_forall in C.
  apply Forall_forall. exact C.
Qed.

(** C4, as stated, fails: the answer below has the six required fields and
    no [keyDecisions]; it conforms to the response schema, the call
    succeeds, and the result has no [keyDecisions] at all, where the claim
    says an empty sequence. *)
Lemma analyze_leaves_keyDecisions_undefined :
  result (analyzeMeetingMedia undecided_world clip false) = Return undecided_payload
  /\ conforms responseSchema undecided_payload = true
  /\ get_prop (lit "keyDecisions") undecided_payload = None
  /\ get_prop (lit "keyDecisions") undecided_payload <> Some (JArray []).
Proof. vm_compute. repeat split. discriminate. Qed.

(** C4, amended.  When [analyzeMeetingMedia] succeeds, its result is the
    parsed payload itself, with nothing added and nothing checked.  The
    request it sent carried the response schema, which requires exactly
    title, summary, transcript, actionItems, sentimentData and topics and
    leaves keyDecisions optional.  So the six fields are present in the
    result whenever the payload conforms to that schema, and a payload
    without keyDecisions gives a result without keyDecisions (the field is
    undefined; no empty sequence is filled in). *)
Theorem analyze_returns_the_parsed_payload
    (w : World) (f : File) (b : bool) (v : value) :
  result (analyzeMeetingMedia w f b) = Return v ->
  exists up resp t payload,
    result (uploadMediaFile w f b) = Return up
    /\ In (GenerateContent (analysis_request (uploaded_uri up) (uploaded_mimeType up)))
          (trace (analyzeMeetingMedia w f b))
    /\ models_generateContent w = Resolves resp
    /\ text resp = Some t
    /\ JSON_parse t = Some payload
    /\ v = payload
    /\ required responseSchema = required_fields
    /\ ~ In (lit "keyDecisions") (required responseSchema)
    /\ (conforms responseSchema payload = true ->
        Forall (fun k => has_prop k v = true) required_fields)
    /\ (get_prop (lit "keyDecisions") payload = None ->
        get_prop (lit "keyDecisions") v = None).
Proof.
  rewrite analyzeMeetingMedia_cases.
  destruct (uploadMediaFile w f b) as [tr [up|e|]]; try discriminate.
  destruct (models_generateContent w) as [resp|e]; try discriminate.
  destruct (text resp) as [[|c r]|] eqn:T; try discriminate.
  destruct (JSON_parse (c :: r)) as [payload|] eqn:P; try discriminate.
  intros [= <-]. exists up, resp, (c :: r), payload.
  repeat split; auto.
  - cbn [trace fst]. unfold analysis_events.
    apply in_or_app. right. apply in_or_app. right. now left.
  - intros H. repeat (destruct H as [H|H]; [discriminate H|]). exact H.
  - intros C. now apply (conforms_required responseSchema payload).
Qed.

Lemma analyze_returns_the_parsed_payload_witness :
  exists up resp t payload,
    result (uploadMediaFile undecided_world clip false) = Return up
    /\ In (GenerateContent (analysis_request (uploaded_uri up) (uploaded_mimeType up)))
          (trace (analyzeMeetingMedia undecided_world clip false))
    /\ models_generateContent undecided_world = Resolves resp
    /\ text resp = Some t
    /\ JSON_parse t = Some payload
    /\ undecided_payload = payload
    /\ required responseSchema = required_fields
    /\ ~ In (lit "keyDecisions") (required responseSchema)
    /\ (conforms responseSchema payload = true ->
        Forall (fun k => has_prop k undecided_payload = true) required_fields)
    /\ (get_prop (lit "keyDecisions") payload = None ->
        get_prop (lit "keyDecisions") undecided_payload = None).
Proof.
  apply (analyze_returns_the_parsed_payload undecided_world clip false undecided_payload).
  vm_compute. reflexivity.
Defined.

(** ** Chat against the meeting context: [chatWithMeetingContext] *)

Lemma chat_creates_session w history newMessage contextData :
  truthy (API_KEY w) = true ->
  exists rest,
    trace (chatWithMeetingContext w history newMessage contextData) =
      ChatsCreate (lit "gemini-2.5-flash-lite") (systemInstruction contextData) history
      :: SendMessage newMessage :: rest.
Proof.
  intros Hkey. destruct (getAiClient_present w Hkey) as [key Hc].
  unfold chatWithMeetingContext. rewrite Hc, bind_ret, !bind_emit.
  cbn [trace fst]. eauto.
Qed.

Lemma firstn_long {A} (n : nat) (l : list A) :
  n < length l ->
  length (firstn n l) = n /\ l = firstn n l ++ skipn n l /\ skipn n l <> [].
Proof.
  intros L. split; [|split].
  - rewrite length_firstn. lia.
  - symmetry. apply firstn_skipn.
  - intros E. apply (f_equal (@length A)) in E. rewrite length_skipn in E.
    simpl in E. lia.
Qed.

(** C8. The system instruction of a context chat embeds
    [contextData.substring(0, 30000)] between its fixed head and tail, and
    that is the text sent when the chat session is created.  For a context
    of more than 30,000 characters this is exactly its first 30,000
    characters: the rest of the context does not appear.  For a context of
    at most 30,000 characters it is the whole context. *)
Theorem context_is_cut_at_30000
    (w : World) (history : list (jsstring * jsstring))
    (newMessage contextData : jsstring) :
  Z.of_nat limit = 30000%Z
  /\ systemInstruction contextData =
       instruction_head ++ firstn limit contextData ++ instruction_tail
  /\ (limit < length contextData ->
      length (firstn limit contextData) = limit
      /\ contextData = firstn limit contextData ++ skipn limit contextData
      /\ skipn limit contextData <> []
      /\ length (systemInstruction contextData)
         = length instruction_head + limit + length instruction_tail)
  /\ (length contextData <= limit ->
      systemInstruction contextData = instruction_head ++ contextData ++ instruction_tail)
  /\ (truthy (API_KEY w) = true ->
      In (ChatsCreate (lit "gemini-2.5-flash-lite") (systemInstruction contextData) history)
         (trace (chatWithMeetingContext w history newMessage contextData))).
Proof.
  assert (E : systemInstruction contextData =
              instruction_head ++ firstn limit contextData ++ instruction_tail).
  { unfold systemInstruction, limit, context_limit.
    rewrite substring_prefix by lia. reflexivity. }
  split; [unfold limit, context_limit; lia|].
  split; [exact E|]. split; [|split].
  - intros L. destruct (firstn_long limit contextData L) as (H1 & H2 & H3).
    repeat split; auto.
    rewrite E, !length_app, H1. lia.
  - intros L. rewrite E. now rewrite firstn_all2 by exact L.
  - intros Hkey.
    destruct (chat_creates_session w history newMessage contextData Hkey) as [rest ->].
    now left.
Qed.

Lemma context_is_cut_at_30000_witness :
  limit < length long_context
  /\ length (firstn limit long_context) = limit
  /\ skipn limit long_context <> []
  /\ systemInstruction long_context =
       instruction_head ++ firstn limit long_context ++ instruction_tail
  /\ In (ChatsCreate (lit "gemini-2.5-flash-lite") (systemInstruction long_context) [])
        (trace (chatWithMeetingContext (answering (Some (lit "k")) "ok") []
                                       (lit "Who spoke?") long_context)).
Proof.
  assert (L : limit < length long_context)
    by (unfold long_context; rewrite repeat_length; lia).
  destruct (context_is_cut_at_30000 (answering (Some (lit "k")) "ok") []
              (lit "Who spoke?") long_context) as (_ & E & Hlong & _ & Hsent).
  destruct (Hlong L) as (H1 & _ & H3 & _).
  repeat split; auto.
Defined.

(** C10. The notice "... (truncated if too long)" is part of every system
    instruction, right after the embedded context, whatever the length of
    the context: for a context of at most 30,000 characters the whole
    context is embedded and the notice follows it all the same. *)
Theorem truncation_notice_is_unconditional
    (w : World) (history : list (jsstring * jsstring))
    (newMessage contextData : jsstring) :
  truncation_notice = lit "... (truncated if too long)"
  /\ occurs_in truncation_notice (systemInstruction contextData)
  /\ systemInstruction contextData =
       (instruction_head ++ substring contextData 0 context_limit)
       ++ truncation_notice ++ lit ". " ++ nl ++ lit "  Be concise and helpful."
  /\ (length contextData <= limit ->
      systemInstruction contextData =
        (instruction_head ++ contextData)
        ++ truncation_notice ++ lit ". " ++ nl ++ lit "  Be concise and helpful.")
  /\ (truthy (API_KEY w) = true ->
      In (ChatsCreate (lit "gemini-2.5-flash-lite") (systemInstruction contextData) history)
         (trace (chatWithMeetingContext w history newMessage contextData))).
Proof.
  assert (E : systemInstruction contextData =
       (instruction_head ++ substring contextData 0 context_limit)
       ++ truncation_notice ++ lit ". " ++ nl ++ lit "  Be concise and helpful.").
  { unfold systemInstruction, instruction_tail. now rewrite <- !app_assoc. }
  split; [reflexivity|]. split; [|split; [exact E|split]].
  - rewrite E. eexists _, _. reflexivity.
  - intros L. rewrite E. unfold context_limit.
    rewrite substring_prefix by lia. fold context_limit. fold limit.
    now rewrite firstn_all2 by exact L.
  - intros Hkey.
    destruct (chat_creates_session w history newMessage contextData Hkey) as [rest ->].
    now left.
Qed.

Lemma truncation_notice_witness :
  length (lit "{}") <= limit
  /\ systemInstruction (lit "{}") =
       (instruction_head ++ lit "{}")
       ++ truncation_notice ++ lit ". " ++ nl ++ lit "  Be concise and helpful."
  /\ In (ChatsCreate (lit "gemini-2.5-flash-lite") (systemInstruction (lit "{}")) [])
        (trace (chatWithMeetingContext (answering (Some (lit "k")) "ok") []
                                       (lit "Who spoke?") (lit "{}"))).
Proof.
  assert (L : length (lit "{}") <= limit)
    by (unfold limit, context_limit; simpl; lia).
  destruct (truncation_notice_is_unconditional (answering (Some (lit "k")) "ok") []
              (lit "Who spoke?") (lit "{}")) as (_ & _ & _ & Hshort & Hsent).
  split; [exact L|]. split; [exact (Hshort L)|]. apply Hsent. reflexivity.
Defined.

(** ** Research and the sources of a chat message *)

Lemma researchTopic_resolved w q resp :
  truthy (API_KEY w) = true ->
  models_generateContent w = Resolves resp ->
  researchTopic w q =
    ([GenerateContent (research_request q)],
     Return {| research_text := or_else (text resp) msg_no_results;
               research_sources := grounding_chunks resp |}).
Proof.
  intros Hkey Hgen. destruct (getAiClient_present w Hkey) as [key Hc].
  unfold researchTopic. now rewrite Hc, bind_ret, bind_emit, Hgen.
Qed.

Lemma filter_Boolean_links (chunks : list GroundingChunk) :
  map Some (ChatInterface.filter_Boolean (map ChatInterface.link_of chunks))
  = map ChatInterface.link_of (filter carries_link chunks).
Proof.
  induction chunks as [|[[l|] [l'|]] chunks IH]; simpl; try rewrite IH; reflexivity.
Qed.

(** C3, as stated, fails: for the grounding chunks
    [[{web: {title: "A", uri: "http://a"}}, {}]] [researchTopic] returns
    both chunks, the empty one included, not the single source. *)
Lemma research_returns_the_empty_chunk :
  result (researchTopic grounded_world (lit "what is A?")) =
    Return {| research_text := lit "Found it.";
              research_sources := [chunk_A; empty_chunk] |}
  /\ length [chunk_A; empty_chunk] = 2
  /\ carries_link empty_chunk = false.
Proof. repeat split. Qed.

(** C3, amended.  [researchTopic] returns the grounding chunks of the first
    candidate as they are, empty entries included (and no chunk at all when
    the answer has none).  The filtering is done by the chat panel when it
    builds the model's message: in search mode [handleSend] appends a
    message whose sources are the [web] link, else the [entry_point] link,
    of exactly the chunks that carry one, in order, and are undefined
    when there is no chunk. *)
Theorem research_sources_are_filtered_by_the_chat_panel
    (w : World) (resp : GenerateContentResponse) (contextData : jsstring)
    (now later : N) (st : ChatInterface.State) :
  truthy (API_KEY w) = true ->
  models_generateContent w = Resolves resp ->
  ChatInterface.useSearch st = true ->
  ChatInterface.trim (ChatInterface.input st) <> [] ->
  result (researchTopic w (ChatInterface.input st)) =
    Return {| research_text := or_else (text resp) msg_no_results;
              research_sources := grounding_chunks resp |}
  /\ (exists userMsg modelMsg,
        ChatInterface.messages
          (snd (ChatInterface.handleSend w contextData now later st))
        = ChatInterface.messages st ++ [userMsg; modelMsg]
        /\ ChatInterface.content userMsg = ChatInterface.input st
        /\ ChatInterface.content modelMsg = or_else (text resp) msg_no_results
        /\ ChatInterface.sources modelMsg
           = ChatInterface.message_sources (grounding_chunks resp))
  /\ (grounding_chunks resp = [] ->
      ChatInterface.message_sources (grounding_chunks resp) = None)
  /\ (grounding_chunks resp <> [] ->
      exists links,
        ChatInterface.message_sources (grounding_chunks resp) = Some links
        /\ map Some links
           = map ChatInterface.link_of (filter carries_link (grounding_chunks resp))).
Proof.
  intros Hkey Hgen Hsearch Hinput.
  pose proof (researchTopic_resolved w (ChatInterface.input st) resp Hkey Hgen) as R.
  split; [now rewrite R|]. split; [|split].
  - unfold ChatInterface.handleSend, ChatInterface.ask.
    destruct (ChatInterface.trim (ChatInterface.input st)) as [|c r]; [congruence|].
    rewrite Hsearch. cbn [ChatInterface.content]. rewrite R.
    cbn -[lit research_request or_else grounding_chunks ChatInterface.modelMsg
          ChatInterface.toString ChatInterface.message_sources].
    eexists _, _. rewrite <- app_assoc. split; [reflexivity|].
    repeat split.
  - intros ->. reflexivity.
  - intros Hne. destruct (grounding_chunks resp) as [|c cs] eqn:G; [congruence|].
    eexists. split; [reflexivity|]. apply filter_Boolean_links.
Qed.

Lemma research_sources_witness :
  result (researchTopic grounded_world (lit "what is A?")) =
    Return {| research_text := lit "Found it.";
              research_sources := [chunk_A; empty_chunk] |}
  /\ exists userMsg modelMsg,
       ChatInterface.messages
         (snd (ChatInterface.handleSend grounded_world (lit "{}") 1000 2000 searching))
       = [ChatInterface.greeting; userMsg; modelMsg]
       /\ ChatInterface.sources modelMsg = Some [source_A].
Proof.
  destruct (research_sources_are_filtered_by_the_chat_panel grounded_world
              {| text := Some (lit "Found it.");
                 candidates :=
                   Some [{| groundingMetadata :=
                              Some {| groundingChunks := Some [chunk_A; empty_chunk] |} |}] |}
              (lit "{}") 1000 2000 searching)
    as (R & (u & m & Hm & _ & _ & Hs) & _ & _).
  - reflexivity.
  - reflexivity.
  - reflexivity.
  - discriminate.
  - split; [exact R|]. exists u, m. split; [exact Hm|exact Hs].
Defined.
(* ================================================================== *)
(** * Further properties of the code *)

(** ** Reading traces *)

Lemma progress_app t t' : progress (t ++ t') = progress t ++ progress t'.
Proof.
  induction t as [|ev t IH]; simpl; [reflexivity|].
  destruct ev; simpl; now rewrite IH.
Qed.

Lemma generate_requests_app t t' :
  generate_requests (t ++ t') = generate_requests t ++ generate_requests t'.
Proof.
  induction t as [|ev t IH]; simpl; [reflexivity|].
  destruct ev; simpl; now rewrite IH.
Qed.

Lemma uploads_app t t' : uploads (t ++ t') = uploads t + uploads t'.
Proof.
  induction t as [|ev t IH]; simpl; [reflexivity|].
  destruct ev; simpl; now rewrite IH.
Qed.

Lemma iteration_reads b fd :
  progress (iteration_events b fd) = (if b then [msg_processing] else [])
  /\ uploads (iteration_events b fd) = 0
  /\ generate_requests (iteration_events b fd) = [].
Proof. now destruct b. Qed.

Lemma poll_reads gets b fd :
  sleeps (trace (poll gets b fd))
    = repeat poll_interval (fetches (trace (poll gets b fd)))
  /\ progress (trace (poll gets b fd))
    = (if b then repeat msg_processing (fetches (trace (poll gets b fd))) else [])
  /\ uploads (trace (poll gets b fd)) = 0
  /\ generate_requests (trace (poll gets b fd)) = [].
Proof.
  revert fd. induction gets as [|[g|e] later IH]; intros fd;
    destruct (state_is "PROCESSING" fd) eqn:P.
  - rewrite (poll_blocked _ _ P). cbn [trace fst].
    destruct (iteration_counts b fd) as (-> & -> & _).
    destruct (iteration_reads b fd) as (-> & -> & ->). now destruct b.
  - rewrite (poll_settled _ _ _ P). now destruct b.
  - rewrite (poll_resolved _ _ _ _ P). cbn [trace fst].
    destruct (IH (unwrap g)) as (S1 & P1 & U1 & G1).
    rewrite sleeps_app, fetches_app, progress_app, uploads_app, generate_requests_app.
    destruct (iteration_counts b fd) as (-> & -> & _).
    destruct (iteration_reads b fd) as (-> & -> & ->).
    rewrite S1, P1, U1, G1. now destruct b.
  - rewrite (poll_settled _ _ _ P). now destruct b.
  - rewrite (poll_rejected _ _ _ _ P). cbn [trace fst].
    destruct (IH fd) as (S1 & P1 & U1 & G1).
    rewrite sleeps_app, fetches_app, progress_app, uploads_app, generate_requests_app.
    destruct (iteration_counts b fd) as (-> & -> & _).
    destruct (iteration_reads b fd) as (-> & -> & ->).
    cbn [sleeps fetches progress uploads generate_requests].
    rewrite S1, P1, U1, G1. now destruct b.
  - rewrite (poll_settled _ _ _ P). now destruct b.
Qed.

Lemma upload_prefix_reads f b :
  progress (upload_prefix f b) = (if b then [msg_uploading] else [])
  /\ uploads (upload_prefix f b) = 1
  /\ generate_requests (upload_prefix f b) = [].
Proof. now destruct b. Qed.

(** The shapes a trace of [uploadMediaFile] can have. *)
Lemma uploadMediaFile_trace w f b :
  truthy (API_KEY w) = true ->
  exists polled logged,
    trace (uploadMediaFile w f b) = upload_prefix f b ++ polled ++ logged
    /\ (polled = [] \/ exists fd, polled = trace (poll (files_get w) b fd))
    /\ sleeps logged = [] /\ fetches logged = 0 /\ progress logged = []
    /\ uploads logged = 0 /\ generate_requests logged = [].
Proof.
  intros Hkey.
  destruct (files_upload w) as [r|e] eqn:Hup.
  2:{ rewrite (uploadMediaFile_rejected w f b e Hkey Hup).
      exists [], upload_failure. cbn [trace fst app]. repeat split; auto. }
  destruct (truthy (name (unwrap r))) eqn:Hname.
  2:{ rewrite (uploadMediaFile_invalid w f b r Hkey Hup (or_introl Hname)).
      exists [], (ConsoleError (lit "Invalid upload response:") :: upload_failure).
      cbn [trace fst app]. repeat split; auto. }
  destruct (truthy (uri (unwrap r))) eqn:Huri.
  2:{ rewrite (uploadMediaFile_invalid w f b r Hkey Hup (or_intror Huri)).
      exists [], (ConsoleError (lit "Invalid upload response:") :: upload_failure).
      cbn [trace fst app]. repeat split; auto. }
  rewrite (uploadMediaFile_polls w f b r Hkey Hup Hname Huri). cbv zeta.
  exists (trace (poll (files_get w) b (unwrap r))).
  destruct (result (poll (files_get w) b (unwrap r))) as [fd|e|].
  - destruct (state_is "FAILED" fd).
    + exists upload_failure. cbn [trace fst]. repeat split; eauto.
    + destruct (uri fd) as [[|c u]|].
      * exists upload_failure. cbn [trace fst]. repeat split; eauto.
      * exists []. cbn [trace fst]. rewrite app_nil_r. repeat split; eauto.
      * exists upload_failure. cbn [trace fst]. repeat split; eauto.
  - exists upload_failure. cbn [trace fst]. repeat split; eauto.
  - exists []. cbn [trace fst]. rewrite app_nil_r. repeat split; eauto.
Qed.

Lemma uploadMediaFile_never_generates w f b :
  generate_requests (trace (uploadMediaFile w f b)) = [].
Proof.
  destruct (truthy (API_KEY w)) eqn:Hkey.
  2:{ now rewrite (uploadMediaFile_no_key w f b Hkey). }
  destruct (uploadMediaFile_trace w f b Hkey)
    as (polled & logged & -> & Hp & _ & _ & _ & _ & G0).
  rewrite !generate_requests_app, G0.
  destruct (upload_prefix_reads f b) as (_ & _ & ->).
  destruct Hp as [->|[fd ->]]; [reflexivity|].
  now destruct (poll_reads (files_get w) b fd) as (_ & _ & _ & ->).
Qed.

(** When the upload does not return, neither does the analysis, and no
    analysis request is sent. *)
Lemma analyze_stops_with_upload w f b :
  (forall e, result (uploadMediaFile w f b) = Throw e ->
             analyzeMeetingMedia w f b = (trace (uploadMediaFile w f b), Throw e))
  /\ (result (uploadMediaFile w f b) = Blocked ->
      analyzeMeetingMedia w f b = (trace (uploadMediaFile w f b), Blocked))
  /\ ((forall up, result (uploadMediaFile w f b) <> Return up) ->
      generate_requests (trace (analyzeMeetingMedia w f b)) = []).
Proof.
  rewrite analyzeMeetingMedia_cases.
  pose proof (uploadMediaFile_never_generates w f b) as G.
  destruct (uploadMediaFile w f b) as [t [up|e|]]; cbn [trace result fst snd] in *;
    (split; [|split]); try discriminate; auto.
  - intros H. now elim (H up).
  - intros e' [= <-]. reflexivity.
Qed.

(** X1. Whatever the remote service answers, one call of [uploadMediaFile]
    sends the file exactly once when an API key is configured (it is never
    sent again after an error) and never asks for an analysis; every wait
    lasts 2000 ms and there are exactly as many waits as status fetches. *)
Theorem ingestion_request_discipline (w : World) (f : File) (b : bool) :
  let t := trace (uploadMediaFile w f b) in
  uploads t = (if truthy (API_KEY w) then 1 else 0)
  /\ generate_requests t = []
  /\ sleeps t = repeat 2000%Z (fetches t).
Proof.
  cbv zeta. destruct (truthy (API_KEY w)) eqn:Hkey.
  2:{ rewrite (uploadMediaFile_no_key w f b Hkey). repeat split. }
  destruct (uploadMediaFile_trace w f b Hkey)
    as (polled & logged & -> & Hp & S0 & F0 & _ & U0 & G0).
  rewrite !uploads_app, !generate_requests_app, !sleeps_app, !fetches_app.
  rewrite S0, F0, U0, G0.
  destruct (upload_prefix_counts f b) as (-> & -> & _).
  destruct (upload_prefix_reads f b) as (_ & -> & ->).
  rewrite ?app_nil_r, ?Nat.add_0_r.
  destruct Hp as [->|[fd ->]].
  - repeat split; reflexivity.
  - destruct (poll_reads (files_get w) b fd) as (-> & _ & -> & ->).
    repeat split; reflexivity.
Qed.

(** ** Ingestion: how each error arises *)

Lemma valid_upload_outcome w f b r :
  truthy (API_KEY w) = true ->
  files_upload w = Resolves r ->
  truthy (name (unwrap r)) = true ->
  truthy (uri (unwrap r)) = true ->
  result (uploadMediaFile w f b) =
    match result (poll (files_get w) b (unwrap r)) with
    | Return fd =>
        if state_is "FAILED" fd then Throw (Error msg_processing_failed)
        else if truthy (uri fd)
             then Return {| uploaded_uri := or_else (uri fd) [];
                            uploaded_mimeType := or_else (mimeType fd) (file_type f) |}
             else Throw (Error msg_missing_uri)
    | Throw e => Throw e
    | Blocked => Blocked
    end.
Proof.
  intros Hkey Hup Hname Huri.
  rewrite (uploadMediaFile_polls w f b r Hkey Hup Hname Huri). cbv zeta.
  destruct (result (poll (files_get w) b (unwrap r))) as [fd|e|]; try reflexivity.
  destruct (state_is "FAILED" fd); [reflexivity|].
  now destruct (uri fd) as [[|c u]|].
Qed.

(** X2. Once the upload answer carries identifier and URI, [uploadMediaFile]
    throws "File processing failed on Gemini servers." exactly when the
    polling loop ends on a handle whose state is FAILED, with or without a
    URI; [analyzeMeetingMedia] then throws the same error and sends no
    analysis request. *)
Theorem failed_state_is_fatal (w : World) (f : File) (b : bool) (r : Envelope) :
  truthy (API_KEY w) = true ->
  files_upload w = Resolves r ->
  truthy (name (unwrap r)) = true ->
  truthy (uri (unwrap r)) = true ->
  (result (uploadMediaFile w f b) = Throw (Error msg_processing_failed)
   <-> exists fd,
         result (poll (files_get w) b (unwrap r)) = Return fd
         /\ state_is "FAILED" fd = true)
  /\ (result (uploadMediaFile w f b) = Throw (Error msg_processing_failed) ->
      result (analyzeMeetingMedia w f b) = Throw (Error msg_processing_failed)
      /\ generate_requests (trace (analyzeMeetingMedia w f b)) = []).
Proof.
  intros Hkey Hup Hname Huri.
  rewrite (valid_upload_outcome w f b r Hkey Hup Hname Huri).
  split.
  - split.
    + destruct (result (poll (files_get w) b (unwrap r))) as [fd|e|] eqn:Hp;
        try discriminate.
      * destruct (state_is "FAILED" fd) eqn:F; [eauto|].
        destruct (truthy (uri fd)); discriminate.
      * now apply poll_never_throws in Hp.
    + intros (fd & -> & ->). reflexivity.
  - rewrite <- (valid_upload_outcome w f b r Hkey Hup Hname Huri). intros H.
    destruct (analyze_stops_with_upload w f b) as (E & _ & G).
    rewrite (E _ H). split; [reflexivity|].
    rewrite <- (E _ H). apply G. intros up. rewrite H. discriminate.
Qed.

(** X3. Each status answer replaces the handle as a whole: the URI of the
    upload answer is not kept.  Once the upload answer carries identifier and
    URI, [uploadMediaFile] throws "File processing incomplete: Missing URI."
    exactly when the polling loop ends on a handle that is not FAILED and
    has no URI (which can only be the handle of a status answer). *)
Theorem missing_uri_after_polling (w : World) (f : File) (b : bool) (r : Envelope) :
  truthy (API_KEY w) = true ->
  files_upload w = Resolves r ->
  truthy (name (unwrap r)) = true ->
  truthy (uri (unwrap r)) = true ->
  result (uploadMediaFile w f b) = Throw (Error msg_missing_uri)
  <-> exists fd g,
        result (poll (files_get w) b (unwrap r)) = Return fd
        /\ In (Resolves g) (files_get w) /\ fd = unwrap g
        /\ state_is "FAILED" fd = false
        /\ truthy (uri fd) = false.
Proof.
  intros Hkey Hup Hname Huri.
  rewrite (valid_upload_outcome w f b r Hkey Hup Hname Huri).
  split.
  - destruct (result (poll (files_get w) b (unwrap r))) as [fd|e|] eqn:Hp;
      try discriminate.
    + destruct (state_is "FAILED" fd) eqn:F; [discriminate|].
      destruct (truthy (uri fd)) eqn:U; [discriminate|]. intros _.
      destruct (poll_returns_observed _ _ _ _ Hp) as [->|(g & Hin & ->)].
      * congruence.
      * exists (unwrap g), g. auto.
    + now apply poll_never_throws in Hp.
  - intros (fd & g & -> & _ & _ & -> & ->). reflexivity.
Qed.

(** X4. When the upload request itself is rejected, [uploadMediaFile] logs
    "Media upload error:" once and throws what the request rejected with,
    unchanged, without any wait or status fetch; [analyzeMeetingMedia]
    throws the same value and sends no analysis request. *)
Theorem upload_rejection_propagates (w : World) (f : File) (b : bool) (e : exn) :
  truthy (API_KEY w) = true ->
  files_upload w = Rejects e ->
  uploadMediaFile w f b = (upload_prefix f b ++ upload_failure, Throw e)
  /\ fetches (trace (uploadMediaFile w f b)) = 0
  /\ sleeps (trace (uploadMediaFile w f b)) = []
  /\ analyzeMeetingMedia w f b = (upload_prefix f b ++ upload_failure, Throw e).
Proof.
  intros Hkey Hup.
  pose proof (uploadMediaFile_rejected w f b e Hkey Hup) as E.
  destruct (analyze_stops_with_upload w f b) as (A & _).
  rewrite (A e) by now rewrite E.
  rewrite E. cbn [trace result fst snd].
  rewrite sleeps_app, fetches_app.
  destruct (upload_prefix_counts f b) as (-> & -> & _). auto.
Qed.

Lemma poll_keeps_waiting gets b fd :
  state_is "PROCESSING" fd = true ->
  Forall still_processing gets ->
  result (poll gets b fd) = Blocked
  /\ fetches (trace (poll gets b fd)) = S (length gets).
Proof.
  revert fd. induction gets as [|[g|e] later IH]; intros fd P H.
  - rewrite (poll_blocked _ _ P). cbn [trace result fst snd].
    now destruct (iteration_counts b fd) as (_ & -> & _).
  - inversion H as [|? ? Hg Hl]; subst. simpl in Hg.
    rewrite (poll_resolved _ _ _ _ P). cbn [trace result fst snd].
    destruct (IH _ Hg Hl) as (-> & F). rewrite fetches_app, F.
    now destruct (iteration_counts b fd) as (_ & -> & _).
  - inversion H as [|? ? Hg Hl]; subst.
    rewrite (poll_rejected _ _ _ _ P). cbn [trace result fst snd].
    destruct (IH _ P Hl) as (-> & F). rewrite fetches_app. cbn [fetches]. rewrite F.
    now destruct (iteration_counts b fd) as (_ & -> & _).
Qed.

(** X5. The polling has no cap and no timeout: as long as the upload and
    every status fetched say PROCESSING (or the fetch fails),
    [uploadMediaFile] neither returns nor throws, however long that lasts;
    after n such answers it has waited n + 1 times and is awaiting its
    (n + 1)-th status fetch. *)
Theorem polling_has_no_cap (w : World) (f : File) (b : bool) (r : Envelope) :
  truthy (API_KEY w) = true ->
  files_upload w = Resolves r ->
  truthy (name (unwrap r)) = true ->
  truthy (uri (unwrap r)) = true ->
  state_is "PROCESSING" (unwrap r) = true ->
  Forall still_processing (files_get w) ->
  result (uploadMediaFile w f b) = Blocked
  /\ fetches (trace (uploadMediaFile w f b)) = S (length (files_get w))
  /\ sleeps (trace (uploadMediaFile w f b))
     = repeat 2000%Z (S (length (files_get w))).
Proof.
  intros Hkey Hup Hname Huri P H.
  destruct (poll_keeps_waiting (files_get w) b (unwrap r) P H) as (Hr & Hf).
  destruct (poll_reads (files_get w) b (unwrap r)) as (Hs & _).
  rewrite (uploadMediaFile_polls w f b r Hkey Hup Hname Huri). cbv zeta.
  rewrite Hr. cbn [trace result fst snd].
  rewrite sleeps_app, fetches_app, Hs, Hf.
  destruct (upload_prefix_counts f b) as (-> & -> & _). auto.
Qed.

(** ** Ingestion: what the outcome depends on *)

Lemma uploadMediaFile_ext w w' f b :
  API_KEY w = API_KEY w' ->
  resource (files_upload w) = resource (files_upload w') ->
  (forall r, truthy (API_KEY w) = true ->
             files_upload w = Resolves r ->
             truthy (name (unwrap r)) = true ->
             truthy (uri (unwrap r)) = true ->
             poll (files_get w) b (unwrap r) = poll (files_get w') b (unwrap r)) ->
  uploadMediaFile w f b = uploadMediaFile w' f b.
Proof.
  intros Hk Hu Hp.
  destruct (truthy (API_KEY w)) eqn:Hkey.
  2:{ rewrite (uploadMediaFile_no_key w f b Hkey).
      rewrite Hk in Hkey. now rewrite (uploadMediaFile_no_key w' f b Hkey). }
  assert (Hkey' : truthy (API_KEY w') = true) by now rewrite <- Hk.
  destruct (files_upload w) as [r|e] eqn:Hup;
    destruct (files_upload w') as [r'|e'] eqn:Hup'; try discriminate.
  2:{ injection Hu as <-.
      now rewrite (uploadMediaFile_rejected w f b e Hkey Hup),
                  (uploadMediaFile_rejected w' f b e Hkey' Hup'). }
  simpl in Hu. injection Hu as Hu.
  destruct (truthy (name (unwrap r))) eqn:Hname.
  2:{ rewrite (uploadMediaFile_invalid w f b r Hkey Hup (or_introl Hname)).
      rewrite Hu in Hname.
      now rewrite (uploadMediaFile_invalid w' f b r' Hkey' Hup' (or_introl Hname)). }
  destruct (truthy (uri (unwrap r))) eqn:Huri.
  2:{ rewrite (uploadMediaFile_invalid w f b r Hkey Hup (or_intror Huri)).
      rewrite Hu in Huri.
      now rewrite (uploadMediaFile_invalid w' f b r' Hkey' Hup' (or_intror Huri)). }
  rewrite (uploadMediaFile_polls w f b r Hkey Hup Hname Huri).
  rewrite (Hp r eq_refl eq_refl Hname Huri). rewrite Hu in *.
  now rewrite (uploadMediaFile_polls w' f b r' Hkey' Hup' Hname Huri).
Qed.

Lemma poll_resources gets gets' b fd :
  map resource gets = map resource gets' ->
  poll gets b fd = poll gets' b fd.
Proof.
  revert gets' fd. induction gets as [|[g|e] later IH];
    intros [|[g'|e'] later'] fd H; try discriminate;
    destruct (state_is "PROCESSING" fd) eqn:P;
    rewrite ?(poll_settled _ _ _ P); try reflexivity;
    simpl in H; injection H as Hh Ht.
  - rewrite !(poll_resolved _ _ _ _ P), Hh. now rewrite (IH later' _ Ht).
  - subst e'. rewrite !(poll_rejected _ _ _ _ P). now rewrite (IH later' _ Ht).
Qed.

(** X6. The service reads every upload and status answer through
    [answer.file ?? answer]: whether the resource comes wrapped in a [file]
    field or bare makes no difference to what [uploadMediaFile] does.  Two
    worlds with the same key whose answers carry the same resources give
    the same outcome and the same requests, waits and progress reports, in
    the same order.  The console can tell them apart in one place only,
    the entry "Invalid upload response:", which logs the answer as it came:
    when the upload answer has identifier and URI, so that this entry is
    not made, the two runs agree on every event. *)
Theorem wrapping_is_irrelevant (w w' : World) (f : File) (b : bool) :
  API_KEY w = API_KEY w' ->
  resource (files_upload w) = resource (files_upload w') ->
  map resource (files_get w) = map resource (files_get w') ->
  result (uploadMediaFile w f b) = result (uploadMediaFile w' f b)
  /\ without_logs (trace (uploadMediaFile w f b))
     = without_logs (trace (uploadMediaFile w' f b))
  /\ ((forall r, files_upload w = Resolves r ->
                 truthy (name (unwrap r)) = true /\ truthy (uri (unwrap r)) = true) ->
      uploadMediaFile w f b = uploadMediaFile w' f b).
Proof.
  intros Hk Hu Hg.
  assert (E : uploadMediaFile w f b = uploadMediaFile w' f b).
  { apply uploadMediaFile_ext; auto.
    intros r _ _ _ _. now apply poll_resources. }
  rewrite E. auto.
Qed.

(** X7. Polling stops at the first status that is not PROCESSING: once
    [uploadMediaFile] has returned or thrown, status answers that the
    service would have given later change nothing, neither the outcome nor
    the events. *)
Theorem later_answers_are_not_requested
    (w : World) (f : File) (b : bool) (more : list (reply Envelope)) :
  result (uploadMediaFile w f b) <> Blocked ->
  uploadMediaFile (with_gets w (files_get w ++ more)) f b = uploadMediaFile w f b.
Proof.
  intros H. symmetry. apply uploadMediaFile_ext; try reflexivity.
  intros r Hkey Hup Hname Huri. cbn [with_gets files_get]. symmetry.
  apply poll_extend. intros Hb. apply H.
  rewrite (uploadMediaFile_polls w f b r Hkey Hup Hname Huri). cbv zeta.
  now rewrite Hb.
Qed.

(** X8. An upload answer that is valid and already settled (neither
    PROCESSING nor FAILED, as for a small file) is returned at once: the
    only events are the progress report and the upload request, with no
    wait and no status fetch, whatever status answers the service would
    give. *)
Theorem settled_upload_is_not_polled (w : World) (f : File) (b : bool) (r : Envelope) :
  truthy (API_KEY w) = true ->
  files_upload w = Resolves r ->
  truthy (name (unwrap r)) = true ->
  truthy (uri (unwrap r)) = true ->
  state_is "PROCESSING" (unwrap r) = false ->
  state_is "FAILED" (unwrap r) = false ->
  exists u,
    uri (unwrap r) = Some u
    /\ uploadMediaFile w f b =
         (upload_prefix f b,
          Return {| uploaded_uri := u;
                    uploaded_mimeType := or_else (mimeType (unwrap r)) (file_type f) |})
    /\ sleeps (trace (uploadMediaFile w f b)) = []
    /\ fetches (trace (uploadMediaFile w f b)) = 0.
Proof.
  intros Hkey Hup Hname Huri P F.
  pose proof Huri as U. apply truthy_cons in U as (c & u & U).
  exists (c :: u). split; [exact U|].
  assert (E : uploadMediaFile w f b =
         (upload_prefix f b,
          Return {| uploaded_uri := c :: u;
                    uploaded_mimeType := or_else (mimeType (unwrap r)) (file_type f) |})).
  { rewrite (uploadMediaFile_polls w f b r Hkey Hup Hname Huri). cbv zeta.
    rewrite (poll_settled _ _ _ P). cbn [trace result fst snd ret].
    now rewrite F, U, app_nil_r. }
  rewrite E. cbn [trace fst].
  destruct (upload_prefix_counts f b) as (-> & -> & _). auto.
Qed.

(** X9. The MIME type [uploadMediaFile] returns, which is the one sent with
    the analysis request, is the one of the final handle when the service
    gave a non-empty one and the browser's [file.type] otherwise; so it is
    not empty whenever the browser knows the type of the file. *)
Theorem returned_mime_type (w : World) (f : File) (b : bool) (up : Uploaded) :
  result (uploadMediaFile w f b) = Return up ->
  exists r fd,
    files_upload w = Resolves r
    /\ result (poll (files_get w) b (unwrap r)) = Return fd
    /\ uploaded_mimeType up = or_else (mimeType fd) (file_type f)
    /\ (truthy (mimeType fd) = false -> uploaded_mimeType up = file_type f)
    /\ (file_type f <> [] -> uploaded_mimeType up <> []).
Proof.
  intros H.
  destruct (truthy (API_KEY w)) eqn:Hkey.
  2:{ now rewrite (uploadMediaFile_no_key w f b Hkey) in H. }
  destruct (files_upload w) as [r|e] eqn:Hup.
  2:{ now rewrite (uploadMediaFile_rejected w f b e Hkey Hup) in H. }
  destruct (truthy (name (unwrap r))) eqn:Hname.
  2:{ now rewrite (uploadMediaFile_invalid w f b r Hkey Hup (or_introl Hname)) in H. }
  destruct (truthy (uri (unwrap r))) eqn:Huri.
  2:{ now rewrite (uploadMediaFile_invalid w f b r Hkey Hup (or_intror Huri)) in H. }
  rewrite (valid_upload_outcome w f b r Hkey Hup Hname Huri) in H.
  destruct (result (poll (files_get w) b (unwrap r))) as [fd|e|] eqn:Hp;
    try discriminate.
  destruct (state_is "FAILED" fd); [discriminate|].
  destruct (truthy (uri fd)); [|discriminate].
  injection H as <-. exists r, fd. cbn [uploaded_mimeType].
  repeat split; auto.
  - unfold truthy, or_else. destruct (mimeType fd) as [[|c m]|]; intros; congruence.
  - unfold or_else. destruct (mimeType fd) as [[|c m]|]; intros; congruence.
Qed.

(** ** Analysis: requests and progress *)

(** X10. [analyzeMeetingMedia] asks for an analysis at most once, and exactly
    when the ingestion has returned; the request then names the URI and the
    MIME type the ingestion returned.  The file is uploaded exactly once
    when an API key is configured. *)
Theorem analysis_is_requested_once (w : World) (f : File) (b : bool) :
  generate_requests (trace (analyzeMeetingMedia w f b)) =
    match result (uploadMediaFile w f b) with
    | Return up => [analysis_request (uploaded_uri up) (uploaded_mimeType up)]
    | _ => []
    end
  /\ uploads (trace (analyzeMeetingMedia w f b))
     = (if truthy (API_KEY w) then 1 else 0).
Proof.
  rewrite analyzeMeetingMedia_cases.
  pose proof (uploadMediaFile_never_generates w f b) as G.
  assert (U : uploads (trace (uploadMediaFile w f b))
              = (if truthy (API_KEY w) then 1 else 0)).
  { destruct (truthy (API_KEY w)) eqn:Hkey.
    2:{ now rewrite (uploadMediaFile_no_key w f b Hkey). }
    destruct (uploadMediaFile_trace w f b Hkey)
      as (polled & logged & -> & Hp & _ & _ & _ & U0 & _).
    rewrite !uploads_app, U0.
    destruct (upload_prefix_reads f b) as (_ & -> & _).
    destruct Hp as [->|[fd ->]]; [reflexivity|].
    now destruct (poll_reads (files_get w) b fd) as (_ & _ & -> & _). }
  destruct (uploadMediaFile w f b) as [t [up|e|]]; cbn [trace result fst snd] in *;
    auto.
  assert (A : generate_requests (analysis_events b up)
              = [analysis_request (uploaded_uri up) (uploaded_mimeType up)]
              /\ uploads (analysis_events b up) = 0) by now destruct b.
  destruct A as [A1 A2].
  destruct (models_generateContent w) as [resp|e]; cbn [trace fst].
  - destruct (text resp) as [[|c r]|]; cbn [trace fst];
      try destruct (JSON_parse (c :: r)); cbn [trace fst];
      rewrite ?generate_requests_app, ?uploads_app, G, A1, A2, U;
      cbn [generate_requests uploads app]; rewrite ?Nat.add_0_r; auto.
  - rewrite ?generate_requests_app, ?uploads_app, G, A1, A2, U.
    rewrite Nat.add_0_r. auto.
Qed.

Lemma uploadMediaFile_progress w f b :
  progress (trace (uploadMediaFile w f b)) =
    (if b && truthy (API_KEY w)
     then msg_uploading :: repeat msg_processing (fetches (trace (uploadMediaFile w f b)))
     else []).
Proof.
  destruct (truthy (API_KEY w)) eqn:Hkey.
  2:{ now rewrite (uploadMediaFile_no_key w f b Hkey), andb_false_r. }
  destruct (uploadMediaFile_trace w f b Hkey)
    as (polled & logged & -> & Hp & _ & F0 & P0 & _ & _).
  rewrite !progress_app, !fetches_app, P0, F0.
  destruct (upload_prefix_counts f b) as (_ & -> & _).
  destruct (upload_prefix_reads f b) as (-> & _ & _).
  rewrite andb_true_r, ?app_nil_r, ?Nat.add_0_r.
  destruct Hp as [->|[fd ->]].
  - now destruct b.
  - destruct (poll_reads (files_get w) b fd) as (_ & -> & _ & _). now destruct b.
Qed.

Lemma analyzeMeetingMedia_progress (w : World) (f : File) (b : bool) :
  progress (trace (analyzeMeetingMedia w f b)) =
    (if b && truthy (API_KEY w)
     then msg_uploading
          :: repeat msg_processing (fetches (trace (analyzeMeetingMedia w f b)))
          ++ match result (uploadMediaFile w f b) with
             | Return _ => [msg_thinking]
             | _ => []
             end
     else []).
Proof.
  destruct (truthy (API_KEY w)) eqn:Hkey.
  2:{ rewrite (analyzeMeetingMedia_no_key w f b Hkey), andb_false_r. reflexivity. }
  rewrite analyzeMeetingMedia_cases.
  pose proof (uploadMediaFile_progress w f b) as P. rewrite Hkey in P.
  rewrite andb_true_r in *.
  destruct (uploadMediaFile w f b) as [t [up|e|]]; cbn [trace result fst snd] in *;
    try (rewrite P; destruct b; now rewrite ?app_nil_r).
  assert (A : progress (analysis_events b up) = (if b then [msg_thinking] else [])
              /\ fetches (analysis_events b up) = 0) by now destruct b.
  destruct A as [A1 A2].
  assert (E : forall extra,
             progress extra = [] -> fetches extra = 0 ->
             progress (t ++ analysis_events b up ++ extra) =
               (if b
                then msg_uploading
                     :: repeat msg_processing
                          (fetches (t ++ analysis_events b up ++ extra))
                     ++ [msg_thinking]
                else [])).
  { intros extra Pe Fe.
    rewrite !progress_app, !fetches_app, P, A1, A2, Pe, Fe, Nat.add_0_r, app_nil_r.
    now destruct b. }
  destruct (models_generateContent w) as [resp|e]; cbn [trace fst].
  - destruct (text resp) as [[|c r]|]; cbn [trace fst];
      try destruct (JSON_parse (c :: r)); cbn [trace fst];
      try (rewrite <- (app_nil_r (analysis_events b up)); now apply E).
    now apply E.
  - rewrite <- (app_nil_r (analysis_events b up)). now apply E.
Qed.

(** X11. What the progress callback of [analyzeMeetingMedia] is told, in
    order: "Uploading media to safe storage...", then "Processing media
    file (this may take a moment)..." once per status fetch, then "Deep
    Thinking & Analysis..." if and only if the ingestion returned.  Nothing
    is reported when no API key is configured or no callback is given. *)
Theorem progress_reports (w : World) (f : File) (b : bool) :
  progress (trace (analyzeMeetingMedia w f b)) =
    (if b && truthy (API_KEY w)
     then msg_uploading
          :: repeat msg_processing (fetches (trace (analyzeMeetingMedia w f b)))
          ++ match result (uploadMediaFile w f b) with
             | Return _ => [msg_thinking]
             | _ => []
             end
     else [])
  /\ (In msg_thinking (progress (trace (analyzeMeetingMedia w f b)))
      <-> b = true /\ exists up, result (uploadMediaFile w f b) = Return up).
Proof.
  pose proof (analyzeMeetingMedia_progress w f b) as E. split; [exact E|].
  rewrite E. split.
  - destruct b; [|intros []]. cbn [andb].
    destruct (truthy (API_KEY w)); [|intros []].
    intros [H|H]; [discriminate H|].
    apply in_app_or in H as [H|H].
    + apply repeat_spec in H. discriminate H.
    + destruct (result (uploadMediaFile w f true)) as [up|e|]; try now elim H.
      eauto.
  - intros (-> & up & Hup). rewrite Hup. cbn [andb].
    destruct (truthy (API_KEY w)) eqn:Hkey.
    + right. apply in_or_app. right. now left.
    + rewrite (uploadMediaFile_no_key w f true Hkey) in Hup. discriminate Hup.
Qed.

(** X12. What the answer of the analysis request can do to a finished
    ingestion: when the request is rejected, the value it rejected with is
    thrown unchanged and nothing more is logged; when it answers without
    text, or with the empty text, "No response from AI" is thrown, nothing
    is parsed and no parse failure is logged.  In both cases the request
    has been sent. *)
Theorem analysis_answer_errors
    (w : World) (f : File) (b : bool) (up : Uploaded) :
  result (uploadMediaFile w f b) = Return up ->
  (forall e,
      models_generateContent w = Rejects e ->
      analyzeMeetingMedia w f b =
        (trace (uploadMediaFile w f b) ++ analysis_events b up, Throw e))
  /\ (forall resp,
        models_generateContent w = Resolves resp ->
        truthy (text resp) = false ->
        analyzeMeetingMedia w f b =
          (trace (uploadMediaFile w f b) ++ analysis_events b up,
           Throw (Error msg_no_response))).
Proof.
  intros Hup. rewrite analyzeMeetingMedia_cases.
  destruct (uploadMediaFile w f b) as [t o]. cbn [trace result fst snd] in *. subst o.
  split.
  - intros e ->. reflexivity.
  - intros resp -> Ht. now destruct (text resp) as [[|c r]|].
Qed.

(** ** Chat, research and image analysis *)

Lemma or_else_nonempty a fallback : fallback <> [] -> or_else a fallback <> [].
Proof. intros H. unfold or_else. destruct a as [[|c r]|]; auto; discriminate. Qed.

Lemma chat_run w history newMessage contextData :
  truthy (API_KEY w) = true ->
  chatWithMeetingContext w history newMessage contextData =
    ([ChatsCreate (lit "gemini-2.5-flash-lite") (systemInstruction contextData) history;
      SendMessage newMessage],
     match chat_sendMessage w with
     | Resolves answer => Return (or_else (text answer) msg_no_chat_response)
     | Rejects e => Throw e
     end).
Proof.
  intros Hkey. destruct (getAiClient_present w Hkey) as [key Hc].
  unfold chatWithMeetingContext. rewrite Hc, bind_ret, !bind_emit.
  now destruct (chat_sendMessage w).
Qed.

(** X13. A context chat never returns an empty reply: when it returns, the
    reply is the text of the model's answer if that is not empty and "I
    couldn't generate a response." otherwise.  When it throws, the error is
    "API Key not found" or what [sendMessage] rejected with. *)
Theorem chat_reply_is_never_empty
    (w : World) (history : list (jsstring * jsstring))
    (newMessage contextData : jsstring) :
  match result (chatWithMeetingContext w history newMessage contextData) with
  | Return reply =>
      reply <> []
      /\ exists answer,
           chat_sendMessage w = Resolves answer
           /\ reply = or_else (text answer) msg_no_chat_response
           /\ (truthy (text answer) = true -> Some reply = text answer)
           /\ (truthy (text answer) = false -> reply = msg_no_chat_response)
  | Throw e => e = Error msg_no_api_key \/ chat_sendMessage w = Rejects e
  | Blocked => False
  end.
Proof.
  destruct (truthy (API_KEY w)) eqn:Hkey.
  2:{ apply getAiClient_absent in Hkey. unfold chatWithMeetingContext.
      rewrite Hkey, bind_throw. now left. }
  rewrite (chat_run w history newMessage contextData Hkey). cbn [result snd].
  destruct (chat_sendMessage w) as [answer|e]; [|now right].
  split; [apply or_else_nonempty; discriminate|].
  exists answer. repeat split.
  - unfold truthy, or_else. destruct (text answer) as [[|c r]|]; intros; congruence.
  - unfold truthy, or_else. destruct (text answer) as [[|c r]|]; intros; congruence.
Qed.

(** X14. Only the first 30,000 characters of the context can influence a
    context chat: two contexts that agree on them give the same run, the
    same system instruction included. *)
Theorem context_beyond_limit_is_ignored
    (w : World) (history : list (jsstring * jsstring))
    (newMessage contextData contextData' : jsstring) :
  firstn limit contextData = firstn limit contextData' ->
  systemInstruction contextData = systemInstruction contextData'
  /\ chatWithMeetingContext w history newMessage contextData
     = chatWithMeetingContext w history newMessage contextData'.
Proof.
  intros H.
  assert (E : systemInstruction contextData = systemInstruction contextData').
  { unfold systemInstruction, context_limit.
    rewrite !substring_prefix by lia. fold context_limit. fold limit. now rewrite H. }
  split; [exact E|].
  unfold chatWithMeetingContext. now rewrite E.
Qed.

(** X15. The system instruction is the context cut at 30,000 characters plus
    157 fixed characters: its length is [min(length, 30000) + 157], so it
    never exceeds 30,157 characters however long the context is. *)
Theorem system_instruction_length (contextData : jsstring) :
  length (systemInstruction contextData) = Nat.min (length contextData) limit + 157
  /\ (Z.of_nat (length (systemInstruction contextData)) <= 30157)%Z.
Proof.
  assert (E : length (systemInstruction contextData)
              = Nat.min (length contextData) limit + 157).
  { unfold systemInstruction, context_limit.
    rewrite substring_prefix by lia. fold context_limit. fold limit.
    rewrite !length_app, length_firstn.
    change (length instruction_head) with 102.
    change (length instruction_tail) with 55. lia. }
  split; [exact E|]. rewrite E.
  assert (Z.of_nat limit = 30000%Z) by (unfold limit, context_limit; lia). lia.
Qed.

(** X16. A search never fails for want of grounding and never returns an
    empty text.  When [researchTopic] returns, its text is the answer's
    text, or "No results found." when that is missing or empty; its sources
    are the grounding chunks of the first candidate only, and the empty
    list when candidates, metadata or chunks are missing.  It throws only
    "API Key not found" or what the request rejected with. *)
Theorem research_outcomes (w : World) (q : jsstring) :
  match result (researchTopic w q) with
  | Return r =>
      research_text r <> []
      /\ exists resp,
           models_generateContent w = Resolves resp
           /\ research_text r = or_else (text resp) msg_no_results
           /\ research_sources r =
                match candidates resp with
                | Some (first :: _) =>
                    match groundingMetadata first with
                    | Some {| groundingChunks := Some chunks |} => chunks
                    | _ => []
                    end
                | _ => []
                end
  | Throw e => e = Error msg_no_api_key \/ models_generateContent w = Rejects e
  | Blocked => False
  end.
Proof.
  destruct (truthy (API_KEY w)) eqn:Hkey.
  2:{ apply getAiClient_absent in Hkey. unfold researchTopic.
      rewrite Hkey, bind_throw. now left. }
  destruct (models_generateContent w) as [resp|e] eqn:Hgen.
  - rewrite (researchTopic_resolved w q resp Hkey Hgen). cbn [result snd research_text].
    split; [apply or_else_nonempty; discriminate|].
    exists resp. repeat split. cbn [research_sources]. unfold grounding_chunks.
    destruct (candidates resp) as [[|c cs]|]; try reflexivity.
    destruct (groundingMetadata c) as [[[chunks|]]|]; reflexivity.
  - destruct (getAiClient_present w Hkey) as [key Hc].
    unfold researchTopic. rewrite Hc, bind_ret, bind_emit, Hgen. now right.
Qed.

(** ** Image analysis *)

Lemma split_no_separator sep s : ~ In sep s -> split sep s = [s].
Proof.
  induction s as [|c s IH]; intros H; simpl; [reflexivity|].
  destruct (N.eqb_spec c sep) as [->|Hne]; [elim H; now left|].
  rewrite IH; [reflexivity|]. intros Hin. apply H. now right.
Qed.

Lemma split_at_separator sep p q :
  ~ In sep p -> split sep (p ++ sep :: q) = p :: split sep q.
Proof.
  induction p as [|c p IH]; intros H; simpl.
  - now rewrite N.eqb_refl.
  - destruct (N.eqb_spec c sep) as [->|Hne]; [elim H; now left|].
    rewrite IH; [reflexivity|]. intros Hin. apply H. now right.
Qed.

(** X17. [fileToGenerativePart] hands on what follows the first comma of the
    data URL: for a reader result [head,payload] with no comma in head or
    payload (as in [data:image/png;base64,....]) the part carries exactly
    the payload, and the MIME type is the file's own.  A reader result
    without any comma still yields a part, with undefined data. *)
Theorem image_part_is_the_payload (f : File) (head payload : jsstring) :
  ~ In (ch ",") head ->
  ~ In (ch ",") payload ->
  (file_dataURL f = Resolves (head ++ ch "," :: payload) ->
   fileToGenerativePart f =
     ([ReadAsDataURL (file_name f)],
      Return (inlineDataPart (Some payload) (file_type f))))
  /\ (file_dataURL f = Resolves head ->
      fileToGenerativePart f =
        ([ReadAsDataURL (file_name f)],
         Return (inlineDataPart None (file_type f)))).
Proof.
  intros Hh Hp. unfold fileToGenerativePart. split; intros ->;
    rewrite bind_emit; cbn [await bind ret trace result fst snd app].
  - now rewrite (split_at_separator _ _ _ Hh), (split_no_separator _ _ Hp).
  - now rewrite (split_no_separator _ _ Hh).
Qed.

(** X18. [analyzeUploadedImage] never returns an empty text: it returns the
    answer's text, or "Could not analyze image." when that is missing or
    empty, after exactly one request that carries the part read from the
    file.  When the file cannot be read, what the reader rejected with is
    thrown and no request is sent. *)
Theorem image_analysis_outcomes (w : World) (f : File) :
  match result (analyzeUploadedImage w f) with
  | Return answer =>
      answer <> []
      /\ exists url resp,
           file_dataURL f = Resolves url
           /\ models_generateContent w = Resolves resp
           /\ answer = or_else (text resp) (lit "Could not analyze image.")
           /\ generate_requests (trace (analyzeUploadedImage w f))
              = [image_request
                   (inlineDataPart (nth_error (split (ch ",") url) 1) (file_type f))]
  | Throw e =>
      e = Error msg_no_api_key
      \/ (file_dataURL f = Rejects e
          /\ generate_requests (trace (analyzeUploadedImage w f)) = [])
      \/ models_generateContent w = Rejects e
  | Blocked => False
  end.
Proof.
  destruct (truthy (API_KEY w)) eqn:Hkey.
  2:{ apply getAiClient_absent in Hkey. unfold analyzeUploadedImage.
      rewrite Hkey, bind_throw. now left. }
  destruct (getAiClient_present w Hkey) as [key Hc].
  unfold analyzeUploadedImage, fileToGenerativePart.
  rewrite Hc, bind_ret.
  destruct (file_dataURL f) as [url|e] eqn:Hurl.
  - destruct (models_generateContent w) as [resp|e] eqn:Hgen;
      cbn -[lit split image_request or_else].
    + split; [apply or_else_nonempty; discriminate|]. exists url, resp. auto.
    + auto.
  - cbn -[lit]. right. left. auto.
Qed.

(** ** The chat panel: [handleSend] *)

Lemma digits_injective u v : ChatInterface.digits u = ChatInterface.digits v -> u = v.
Proof.
  revert v. induction u; intros v H; destruct v; simpl in H;
    try discriminate; try reflexivity;
    injection H as H; f_equal; auto.
Qed.

Lemma toString_injective n m :
  ChatInterface.toString n = ChatInterface.toString m -> n = m.
Proof.
  unfold ChatInterface.toString. intros H.
  apply digits_injective in H. now apply DecimalN.Unsigned.to_uint_inj.
Qed.

Lemma research_run w q :
  truthy (API_KEY w) = true ->
  researchTopic w q =
    ([GenerateContent (research_request q)],
     match models_generateContent w with
     | Resolves resp =>
         Return {| research_text := or_else (text resp) msg_no_results;
                   research_sources := grounding_chunks resp |}
     | Rejects e => Throw e
     end).
Proof.
  intros Hkey. destruct (getAiClient_present w Hkey) as [key Hc].
  unfold researchTopic. rewrite Hc, bind_ret, bind_emit.
  now destruct (models_generateContent w).
Qed.

(** The request of a turn, by mode. *)
Lemma ask_cases w contextData st question :
  ChatInterface.ask w contextData st question =
    if truthy (API_KEY w) then
      if ChatInterface.useSearch st then
        ([GenerateContent (research_request question)],
         match models_generateContent w with
         | Resolves resp =>
             Return (or_else (text resp) msg_no_results, grounding_chunks resp)
         | Rejects e => Throw e
         end)
      else
        ([ChatsCreate (lit "gemini-2.5-flash-lite") (systemInstruction contextData)
            (map (fun m => (ChatInterface.role_name (ChatInterface.role m),
                            ChatInterface.content m))
                 (ChatInterface.messages st));
          SendMessage question],
         match chat_sendMessage w with
         | Resolves answer => Return (or_else (text answer) msg_no_chat_response, [])
         | Rejects e => Throw e
         end)
    else ([], Throw (Error msg_no_api_key)).
Proof.
  unfold ChatInterface.ask.
  destruct (truthy (API_KEY w)) eqn:Hkey.
  - destruct (ChatInterface.useSearch st).
    + rewrite (research_run w question Hkey).
      now destruct (models_generateContent w).
    + rewrite (chat_run w _ question contextData Hkey).
      now destruct (chat_sendMessage w).
  - apply getAiClient_absent in Hkey.
    unfold researchTopic, chatWithMeetingContext. rewrite Hkey, !bind_throw.
    now destruct (ChatInterface.useSearch st).
Qed.

(** X19. A message that is empty or all white space is not sent: [handleSend]
    changes nothing and performs no event, and the send button is
    disabled.  Pressing Enter on such an input only cancels the key's
    default action. *)
Theorem blank_input_is_ignored
    (w : World) (contextData : jsstring) (now later : N) (st : ChatInterface.State) :
  ChatInterface.trim (ChatInterface.input st) = [] ->
  ChatInterface.handleSend w contextData now later st = ([], st)
  /\ handleKeyDown w contextData now later (lit "Enter") false st = (true, ([], st))
  /\ send_disabled st = true.
Proof.
  intros H.
  assert (E : ChatInterface.handleSend w contextData now later st = ([], st))
    by (unfold ChatInterface.handleSend; now rewrite H).
  unfold handleKeyDown, send_disabled. rewrite E, H. repeat split.
Qed.

Lemma handleSend_cases w contextData now later st :
  ChatInterface.trim (ChatInterface.input st) <> [] ->
  ChatInterface.handleSend w contextData now later st =
    match ChatInterface.ask w contextData st (ChatInterface.input st) with
    | (t, Return (responseText, srcs)) =>
        (t, after_turn now st (ChatInterface.modelMsg later responseText srcs))
    | (t, Throw e) =>
        (t ++ [ConsoleError (ChatInterface.exn_text e)], after_turn now st (apology later))
    | (t, Blocked) =>
        (t, {| ChatInterface.messages := ChatInterface.messages st ++ [userMsg now st];
               ChatInterface.input := [];
               ChatInterface.isLoading := true;
               ChatInterface.useSearch := ChatInterface.useSearch st |})
    end.
Proof.
  intros H. unfold ChatInterface.handleSend, after_turn.
  destruct (ChatInterface.trim (ChatInterface.input st)) as [|c r]; [congruence|].
  cbn [ChatInterface.content].
  destruct (ChatInterface.ask w contextData st (ChatInterface.input st))
    as [t [[responseText srcs]|e|]]; rewrite <- ?app_assoc; reflexivity.
Qed.

(** X20. Every turn with a non-blank input ends the same way, whether the
    request of the turn is answered or rejected: the log grows by exactly
    two messages, the user's question (the input as typed, not trimmed) and
    one reply of the model, the input is cleared and the loading flag is
    off.  The reply is never empty: it is the answer, a fallback text, or
    the apology. *)
Theorem every_turn_adds_question_and_reply
    (w : World) (contextData : jsstring) (now later : N) (st : ChatInterface.State) :
  ChatInterface.trim (ChatInterface.input st) <> [] ->
  exists reply,
    snd (ChatInterface.handleSend w contextData now later st) = after_turn now st reply
    /\ ChatInterface.role reply = ChatInterface.model
    /\ ChatInterface.content reply <> []
    /\ (reply = apology later
        \/ exists responseText srcs,
             reply = ChatInterface.modelMsg later responseText srcs).
Proof.
  intros H. rewrite (handleSend_cases w contextData now later st H), ask_cases.
  destruct (truthy (API_KEY w)).
  2:{ exists (apology later). repeat split; auto. discriminate. }
  destruct (ChatInterface.useSearch st).
  - destruct (models_generateContent w) as [resp|e].
    + eexists. cbn [snd]. split; [reflexivity|]. repeat split.
      * apply or_else_nonempty. discriminate.
      * right. eauto.
    + exists (apology later). repeat split; auto. discriminate.
  - destruct (chat_sendMessage w) as [answer|e].
    + eexists. cbn [snd]. split; [reflexivity|]. repeat split.
      * apply or_else_nonempty. discriminate.
      * right. eauto.
    + exists (apology later). repeat split; auto. discriminate.
Qed.

(** X21. No failure of the service escapes the panel.  Without an API key a
    turn logs "API Key not found" and replies with the apology, having sent
    no request; when the request of the turn is rejected, the error is
    logged after the request and the reply is the apology, in either
    mode. *)
Theorem failed_request_becomes_an_apology
    (w : World) (contextData : jsstring) (now later : N) (st : ChatInterface.State) :
  ChatInterface.trim (ChatInterface.input st) <> [] ->
  (truthy (API_KEY w) = false ->
   ChatInterface.handleSend w contextData now later st
   = ([ConsoleError msg_no_api_key], after_turn now st (apology later)))
  /\ (forall e,
        truthy (API_KEY w) = true ->
        ChatInterface.useSearch st = true ->
        models_generateContent w = Rejects e ->
        ChatInterface.handleSend w contextData now later st
        = ([GenerateContent (research_request (ChatInterface.input st));
            ConsoleError (ChatInterface.exn_text e)],
           after_turn now st (apology later)))
  /\ (forall e,
        truthy (API_KEY w) = true ->
        ChatInterface.useSearch st = false ->
        chat_sendMessage w = Rejects e ->
        ChatInterface.handleSend w contextData now later st
        = ([ChatsCreate (lit "gemini-2.5-flash-lite") (systemInstruction contextData)
              (map (fun m => (ChatInterface.role_name (ChatInterface.role m),
                              ChatInterface.content m))
                   (ChatInterface.messages st));
            SendMessage (ChatInterface.input st);
            ConsoleError (ChatInterface.exn_text e)],
           after_turn now st (apology later))).
Proof.
  intros H. rewrite (handleSend_cases w contextData now later st H), ask_cases.
  repeat split.
  - intros ->. reflexivity.
  - intros e -> -> ->. reflexivity.
  - intros e -> -> ->. reflexivity.
Qed.

(** X22. In context mode the question goes out once: the history handed to
    the chat session is the log as it was before the turn (roles and
    contents, the greeting included, the new question not), the question
    itself is the message sent, as typed, and the system instruction is
    built from the context.  No search request is made and the reply
    carries no sources. *)
Theorem context_turn
    (w : World) (contextData : jsstring) (now later : N) (st : ChatInterface.State)
    (answer : GenerateContentResponse) :
  ChatInterface.trim (ChatInterface.input st) <> [] ->
  truthy (API_KEY w) = true ->
  ChatInterface.useSearch st = false ->
  chat_sendMessage w = Resolves answer ->
  ChatInterface.handleSend w contextData now later st =
    ([ChatsCreate (lit "gemini-2.5-flash-lite") (systemInstruction contextData)
        (map (fun m => (ChatInterface.role_name (ChatInterface.role m),
                        ChatInterface.content m))
             (ChatInterface.messages st));
      SendMessage (ChatInterface.input st)],
     after_turn now st
       {| ChatInterface.id := ChatInterface.toString (later + 1);
          ChatInterface.role := ChatInterface.model;
          ChatInterface.content := or_else (text answer) msg_no_chat_response;
          ChatInterface.sources := None;
          ChatInterface.isThinking := None |}).
Proof.
  intros H Hkey Hmode Hsend.
  rewrite (handleSend_cases w contextData now later st H), ask_cases.
  now rewrite Hkey, Hmode, Hsend.
Qed.

(** X23. In search mode neither the meeting context nor the conversation is
    sent: the turn does not depend on the context at all, and with an API
    key its only request is the search for the input as typed. *)
Theorem search_turn_ignores_the_context
    (w : World) (contextData contextData' : jsstring) (now later : N)
    (st : ChatInterface.State) :
  ChatInterface.useSearch st = true ->
  ChatInterface.handleSend w contextData now later st
  = ChatInterface.handleSend w contextData' now later st
  /\ (ChatInterface.trim (ChatInterface.input st) <> [] ->
      truthy (API_KEY w) = true ->
      exists logged,
        fst (ChatInterface.handleSend w contextData now later st)
        = GenerateContent (research_request (ChatInterface.input st)) :: logged
        /\ generate_requests logged = []
        /\ forall m sys h, ~ In (ChatsCreate m sys h) logged).
Proof.
  intros Hmode.
  assert (A : forall c, ChatInterface.ask w c st (ChatInterface.input st)
                        = ChatInterface.ask w contextData st (ChatInterface.input st)).
  { intros c. rewrite !ask_cases. now rewrite Hmode. }
  split.
  - unfold ChatInterface.handleSend.
    destruct (ChatInterface.trim (ChatInterface.input st)); [reflexivity|].
    cbn [ChatInterface.content]. now rewrite (A contextData').
  - intros H Hkey.
    rewrite (handleSend_cases w contextData now later st H), ask_cases.
    rewrite Hkey, Hmode.
    destruct (models_generateContent w) as [resp|e]; cbn [fst app].
    + exists []. repeat split. intros m sys h [].
    + eexists. split; [reflexivity|]. split; [reflexivity|].
      intros m sys h [E|[]]. discriminate.
Qed.

(** X24. The two messages a successful turn adds have different identifiers
    whenever the clock has not gone backwards between the two readings: the
    reply's identifier is made from the later reading plus one.  The apology
    of a failed turn takes the later reading itself, so its identifier is
    the question's when both readings are the same millisecond. *)
Theorem turn_identifiers_differ
    (now later : N) (st : ChatInterface.State) (responseText : jsstring)
    (srcs : list GroundingChunk) :
  (now <= later)%N ->
  ChatInterface.id (userMsg now st)
  <> ChatInterface.id (ChatInterface.modelMsg later responseText srcs)
  /\ (ChatInterface.id (userMsg now st) = ChatInterface.id (apology later)
      <-> now = later).
Proof.
  intros L. split.
  - intros H. cbn [ChatInterface.id userMsg ChatInterface.modelMsg] in H.
    apply toString_injective in H. lia.
  - cbn [ChatInterface.id userMsg apology]. split.
    + apply toString_injective.
    + now intros ->.
Qed.

(** X25. Only a plain Enter sends: for any other key, and for Enter with
    Shift held, [handleKeyDown] neither cancels the default action nor
    touches the panel.  A plain Enter always runs [handleSend], which does
    not look at the loading flag: the key sends a non-blank input even
    while the send button is disabled because a request is pending. *)
Theorem only_plain_enter_sends
    (w : World) (contextData : jsstring) (now later : N) (key : jsstring)
    (shiftKey : bool) (st : ChatInterface.State) :
  (key <> lit "Enter" \/ shiftKey = true ->
   handleKeyDown w contextData now later key shiftKey st = (false, ([], st)))
  /\ handleKeyDown w contextData now later (lit "Enter") false st
     = (true, ChatInterface.handleSend w contextData now later st)
  /\ (ChatInterface.isLoading st = true -> send_disabled st = true)
  /\ (ChatInterface.trim (ChatInterface.input st) <> [] ->
      ChatInterface.handleSend w contextData now later st
      = ChatInterface.handleSend w contextData now later
          {| ChatInterface.messages := ChatInterface.messages st;
             ChatInterface.input := ChatInterface.input st;
             ChatInterface.isLoading := false;
             ChatInterface.useSearch := ChatInterface.useSearch st |}).
Proof.
  split; [|split; [reflexivity|split]].
  - intros [Hk | ->]; unfold handleKeyDown.
    + destruct (JsString.eqb key (lit "Enter")) eqn:E; [|reflexivity].
      apply eqb_eq in E. contradiction.
    + now rewrite andb_false_r.
  - intros H. unfold send_disabled. rewrite H.
    now destruct (ChatInterface.trim (ChatInterface.input st)).
  - intros H. unfold ChatInterface.handleSend, ChatInterface.ask.
    cbn [ChatInterface.messages ChatInterface.input ChatInterface.useSearch].
    destruct (ChatInterface.trim (ChatInterface.input st)); [congruence|reflexivity].
Qed.

(** ** The application shell: [handleFileUpload] and what is rendered *)

Lemma includes_occurs needle s : includes needle s = true <-> occurs_in needle s.
Proof.
  assert (SW : forall p t, startsWith p t = true <-> exists rest, t = p ++ rest).
  { induction p as [|x p IH]; intros t; simpl.
    - split; eauto.
    - destruct t as [|y t]; [split; [discriminate|intros [? ?]; discriminate]|].
      rewrite andb_true_iff, N.eqb_eq, IH. split.
      + intros [-> [rest ->]]. eauto.
      + intros [rest [= -> ->]]. eauto. }
  unfold occurs_in. split.
  - induction s as [|c s IH]; simpl; rewrite orb_true_iff; intros [H|H].
    + apply SW in H as [rest E]. exists [], rest. exact E.
    + discriminate H.
    + apply SW in H as [rest E]. exists [], rest. exact E.
    + destruct (IH H) as (before & after & E). exists (c :: before), after.
      simpl. now rewrite <- E.
  - assert (U : forall t, includes needle t =
                        startsWith needle t
                        || match t with [] => false | _ :: r => includes needle r end)
      by (intros [|? ?]; reflexivity).
    intros (before & after & ->). induction before as [|c before IH].
    + rewrite U. apply orb_true_iff. left. apply SW. exists after. reflexivity.
    + rewrite U. apply orb_true_iff. right. exact IH.
Qed.

Lemma callbacks_app t t' st :
  App.callbacks (t ++ t') st = App.callbacks t' (App.callbacks t st).
Proof.
  revert st. induction t as [|ev t IH]; intros st; simpl; [reflexivity|].
  destruct ev; apply IH.
Qed.

(** The callbacks see a trace only through its progress reports. *)
Lemma callbacks_progress t st :
  App.callbacks t st = fold_left (fun s msg => App.onProgress msg s) (progress t) st.
Proof.
  revert st. induction t as [|ev t IH]; intros st; simpl; [reflexivity|].
  destruct ev; apply IH.
Qed.

Lemma processing_reports n st :
  fold_left (fun s msg => App.onProgress msg s) (repeat msg_processing n) st =
    match n with
    | O => st
    | S _ => {| App.status := App.status st;
                App.analysisResult := App.analysisResult st;
                App.progressText := msg_processing;
                App.errorMsg := App.errorMsg st |}
    end.
Proof.
  revert st. induction n as [|n IH]; intros st; [reflexivity|].
  cbn [repeat fold_left]. rewrite IH. destruct n; reflexivity.
Qed.

(** The state the callbacks leave after the reports of one analysis. *)
Lemma callbacks_of_analysis w f st :
  truthy (API_KEY w) = true ->
  App.callbacks (trace (analyzeMeetingMedia w f true)) st =
    match result (uploadMediaFile w f true) with
    | Return _ =>
        {| App.status := App.THINKING;
           App.analysisResult := App.analysisResult st;
           App.progressText := msg_thinking;
           App.errorMsg := App.errorMsg st |}
    | _ =>
        {| App.status := App.status st;
           App.analysisResult := App.analysisResult st;
           App.progressText :=
             match fetches (trace (analyzeMeetingMedia w f true)) with
             | O => msg_uploading
             | S _ => msg_processing
             end;
           App.errorMsg := App.errorMsg st |}
    end.
Proof.
  intros Hkey. rewrite callbacks_progress, analyzeMeetingMedia_progress, Hkey.
  cbn [andb fold_left]. rewrite fold_left_app, processing_reports.
  destruct (result (uploadMediaFile w f true));
    destruct (fetches (trace (analyzeMeetingMedia w f true))); reflexivity.
Qed.

Lemma image_run w f :
  analyzeUploadedImage w f =
    if truthy (API_KEY w) then
      match file_dataURL f with
      | Resolves url =>
          ([ReadAsDataURL (file_name f);
            GenerateContent
              (image_request
                 (inlineDataPart (nth_error (split (ch ",") url) 1) (file_type f)))],
           match models_generateContent w with
           | Resolves resp => Return (or_else (text resp) (lit "Could not analyze image."))
           | Rejects e => Throw e
           end)
      | Rejects e => ([ReadAsDataURL (file_name f)], Throw e)
      end
    else ([], Throw (Error msg_no_api_key)).
Proof.
  destruct (truthy (API_KEY w)) eqn:Hkey.
  - destruct (getAiClient_present w Hkey) as [key Hc].
    unfold analyzeUploadedImage, fileToGenerativePart. rewrite Hc, bind_ret.
    destruct (file_dataURL f) as [url|e]; [|reflexivity].
    now destruct (models_generateContent w).
  - apply getAiClient_absent in Hkey. unfold analyzeUploadedImage.
    now rewrite Hkey, bind_throw.
Qed.

Lemma poll_blocked_has_fetched gets b fd :
  result (poll gets b fd) = Blocked -> 1 <= fetches (trace (poll gets b fd)).
Proof.
  intros H. destruct (state_is "PROCESSING" fd) eqn:P.
  - destruct gets as [|[g|e] later].
    + rewrite (poll_blocked _ _ P). cbn [trace fst].
      destruct (iteration_counts b fd) as (_ & -> & _). lia.
    + rewrite (poll_resolved _ _ _ _ P). cbn [trace fst]. rewrite fetches_app.
      destruct (iteration_counts b fd) as (_ & -> & _). lia.
    + rewrite (poll_rejected _ _ _ _ P). cbn [trace fst]. rewrite fetches_app.
      destruct (iteration_counts b fd) as (_ & -> & _). lia.
  - now rewrite (poll_settled _ _ _ P) in H.
Qed.

Lemma ingest_blocked_has_fetched w f b :
  result (uploadMediaFile w f b) = Blocked ->
  1 <= fetches (trace (uploadMediaFile w f b)).
Proof.
  intros H.
  destruct (truthy (API_KEY w)) eqn:Hkey.
  2:{ now rewrite (uploadMediaFile_no_key w f b Hkey) in H. }
  destruct (files_upload w) as [r|e] eqn:Hup.
  2:{ now rewrite (uploadMediaFile_rejected w f b e Hkey Hup) in H. }
  destruct (truthy (name (unwrap r))) eqn:Hname.
  2:{ now rewrite (uploadMediaFile_invalid w f b r Hkey Hup (or_introl Hname)) in H. }
  destruct (truthy (uri (unwrap r))) eqn:Huri.
  2:{ now rewrite (uploadMediaFile_invalid w f b r Hkey Hup (or_intror Huri)) in H. }
  rewrite (uploadMediaFile_polls w f b r Hkey Hup Hname Huri) in *. cbv zeta in *.
  destruct (result (poll (files_get w) b (unwrap r))) as [fd|e|] eqn:Hp.
  - destruct (state_is "FAILED" fd); [discriminate H|].
    destruct (uri fd) as [[|c u]|]; discriminate H.
  - discriminate H.
  - cbn [trace fst]. rewrite fetches_app.
    apply poll_blocked_has_fetched in Hp. lia.
Qed.

Section Shell.

Variable number_is_zero : jsstring -> bool.
Variable syntax_error_message : jsstring.
Variable rejection_message : jsstring -> option jsstring.

Let handleFileUpload := App.handleFileUpload syntax_error_message rejection_message.
Let render := App.render number_is_zero.

(** X26. A file whose type starts with "image/" never enters the meeting
    pipeline: nothing is uploaded or polled.  The shown analysis, if any,
    is discarded all the same.  On success the answer is shown in an alert
    and the app is idle again; on failure the status is ERROR with no error
    message recorded, so the banner shows the generic text. *)
Theorem image_files_bypass_the_pipeline (w : World) (f : File) (st : App.State) :
  startsWith (lit "image/") (file_type f) = true ->
  let run := handleFileUpload w (Some f) st in
  App.analysisResult (snd run) = JNull
  /\ App.errorMsg (snd run) = []
  /\ (forall n m, ~ In (App.Service (FilesUpload n m)) (fst run))
  /\ (forall n, ~ In (App.Service (FilesGet n)) (fst run))
  /\ match result (analyzeUploadedImage w f) with
     | Return answer =>
         answer <> []
         /\ App.status (snd run) = App.IDLE
         /\ render (snd run) = App.UploadScreen None
         /\ exists before,
              fst run =
                before ++ [App.Alert (lit "Image Analysis (Gemini 3 Pro): " ++ nl ++ answer)]
     | _ =>
         App.status (snd run) = App.ERROR
         /\ render (snd run)
            = App.UploadScreen
                (Some (lit "Something went wrong. Please check your API key and try again."))
     end.
Proof.
  intros Himg. cbv zeta. unfold handleFileUpload, render, App.handleFileUpload.
  rewrite Himg, image_run.
  destruct (truthy (API_KEY w)).
  2:{ cbn -[lit]. repeat split; intros; intros [H|[]]; discriminate H. }
  destruct (file_dataURL f) as [url|e].
  2:{ cbn -[lit]. repeat split; intros; intros [H|[H|[]]]; discriminate H. }
  destruct (models_generateContent w) as [resp|e]; cbn -[lit split image_request or_else nl].
  - repeat split; try (intros; intros [H|[H|[H|[]]]]; discriminate H).
    + apply or_else_nonempty. discriminate.
    + eexists [_; _]. reflexivity.
  - repeat split; intros; intros [H|[H|[H|[]]]]; discriminate H.
Qed.

Lemma media_upload_cases w f st :
  startsWith (lit "image/") (file_type f) = false ->
  handleFileUpload w (Some f) st =
    let st1 :=
      {| App.status := App.UPLOADING; App.analysisResult := JNull;
         App.progressText := App.progressText st; App.errorMsg := [] |} in
    let t := trace (analyzeMeetingMedia w f true) in
    let st2 := App.callbacks t st1 in
    match result (analyzeMeetingMedia w f true) with
    | Return data =>
        (map App.Service t,
         {| App.status := App.COMPLETED; App.analysisResult := data;
            App.progressText := App.progressText st2; App.errorMsg := App.errorMsg st2 |})
    | Throw e =>
        (map App.Service t ++ [App.ConsoleErrorValue e],
         {| App.status := App.ERROR; App.analysisResult := App.analysisResult st2;
            App.progressText := App.progressText st2;
            App.errorMsg := App.error_text syntax_error_message rejection_message e |})
    | Blocked => (map App.Service t, st2)
    end.
Proof.
  intros Hmedia. unfold handleFileUpload, App.handleFileUpload. rewrite Hmedia.
  now destruct (analyzeMeetingMedia w f true) as [t [data|e|]].
Qed.

Lemma analyze_returns_with_key w f b data :
  result (analyzeMeetingMedia w f b) = Return data ->
  truthy (API_KEY w) = true /\ exists up, result (uploadMediaFile w f b) = Return up.
Proof.
  intros H. destruct (truthy (API_KEY w)) eqn:Hkey.
  - split; [reflexivity|]. rewrite analyzeMeetingMedia_cases in H.
    destruct (uploadMediaFile w f b) as [t [up|e|]]; cbn [result snd];
      try discriminate H. exists up. reflexivity.
  - now rewrite (analyzeMeetingMedia_no_key w f b Hkey) in H.
Qed.

(** X27. When the analysis of a recording succeeds, the app ends in status
    COMPLETED holding the parsed payload, with no error message and the
    progress text "Deep Thinking & Analysis...".  The dashboard is shown
    exactly when the payload is truthy, as every object is; for a payload
    such as [null], [false] or the empty string the app stays on the
    progress screen, under the heading "Finalizing Analysis...". *)
Theorem completed_analysis (w : World) (f : File) (st : App.State) (data : value) :
  startsWith (lit "image/") (file_type f) = false ->
  result (analyzeMeetingMedia w f true) = Return data ->
  snd (handleFileUpload w (Some f) st) =
    {| App.status := App.COMPLETED; App.analysisResult := data;
       App.progressText := msg_thinking; App.errorMsg := [] |}
  /\ render (snd (handleFileUpload w (Some f) st)) =
       (if App.ToBoolean number_is_zero data then App.Dashboard data
        else App.ProgressScreen (lit "Finalizing Analysis...") msg_thinking false)
  /\ (forall members, data = JObject members ->
      render (snd (handleFileUpload w (Some f) st)) = App.Dashboard data).
Proof.
  intros Hmedia Hdata.
  destruct (analyze_returns_with_key w f true data Hdata) as (Hkey & up & Hup).
  assert (E : snd (handleFileUpload w (Some f) st) =
    {| App.status := App.COMPLETED; App.analysisResult := data;
       App.progressText := msg_thinking; App.errorMsg := [] |}).
  { rewrite (media_upload_cases w f st Hmedia). cbv zeta.
    rewrite Hdata, (callbacks_of_analysis w f _ Hkey), Hup. reflexivity. }
  rewrite E. split; [reflexivity|]. split.
  - unfold render, App.render. cbn [App.status App.analysisResult App.progressText].
    destruct (App.ToBoolean number_is_zero data); reflexivity.
  - intros members ->. reflexivity.
Qed.

(** X28. When the analysis of a recording fails, the app ends in status
    ERROR with no result, the error is logged, and the upload screen shows a
    banner: the message of the error, or the generic text when that message
    is empty.  For the errors the service itself makes the banner is their
    message, such as "API Key not found". *)
Theorem failed_analysis_shows_the_error
    (w : World) (f : File) (st : App.State) (e : exn) :
  startsWith (lit "image/") (file_type f) = false ->
  result (analyzeMeetingMedia w f true) = Throw e ->
  let run := handleFileUpload w (Some f) st in
  App.status (snd run) = App.ERROR
  /\ App.analysisResult (snd run) = JNull
  /\ App.errorMsg (snd run) = App.error_text syntax_error_message rejection_message e
  /\ fst run = map App.Service (trace (analyzeMeetingMedia w f true))
               ++ [App.ConsoleErrorValue e]
  /\ render (snd run) =
       App.UploadScreen
         (Some (or_else (Some (App.error_text syntax_error_message rejection_message e))
                  (lit "Something went wrong. Please check your API key and try again.")))
  /\ (forall m, e = Error m -> m <> [] -> render (snd run) = App.UploadScreen (Some m)).
Proof.
  intros Hmedia He. cbv zeta.
  rewrite (media_upload_cases w f st Hmedia). cbv zeta. rewrite He.
  cbn [fst snd App.status App.analysisResult App.errorMsg].
  assert (A : App.analysisResult
                (App.callbacks (trace (analyzeMeetingMedia w f true))
                   {| App.status := App.UPLOADING; App.analysisResult := JNull;
                      App.progressText := App.progressText st; App.errorMsg := [] |})
              = JNull).
  { rewrite callbacks_progress.
    generalize (progress (trace (analyzeMeetingMedia w f true))).
    intros l.
    assert (G : forall s, App.analysisResult
                            (fold_left (fun s msg => App.onProgress msg s) l s)
                          = App.analysisResult s).
    { induction l as [|m l IH]; intros s; [reflexivity|]. simpl. now rewrite IH. }
    now rewrite G. }
  rewrite A. repeat split.
  intros m -> Hm. unfold render, App.render. cbn [App.status App.errorMsg App.error_text].
  destruct m; [congruence|reflexivity].
Qed.

(** X29. While the service is still polling, the app shows the progress
    screen under the heading "Uploading Media..." with the text "Processing
    media file (this may take a moment)..."; the status is UPLOADING, and
    THINKING is not reached before the ingestion has returned. *)
Theorem pending_analysis_view (w : World) (f : File) (st : App.State) :
  startsWith (lit "image/") (file_type f) = false ->
  result (analyzeMeetingMedia w f true) = Blocked ->
  snd (handleFileUpload w (Some f) st) =
    {| App.status := App.UPLOADING; App.analysisResult := JNull;
       App.progressText := msg_processing; App.errorMsg := [] |}
  /\ render (snd (handleFileUpload w (Some f) st)) =
       App.ProgressScreen (lit "Uploading Media...") msg_processing false.
Proof.
  intros Hmedia Hb.
  assert (Hkey : truthy (API_KEY w) = true).
  { destruct (truthy (API_KEY w)) eqn:Hkey; [reflexivity|].
    now rewrite (analyzeMeetingMedia_no_key w f true Hkey) in Hb. }
  assert (Hup : result (uploadMediaFile w f true) = Blocked).
  { rewrite analyzeMeetingMedia_cases in Hb.
    destruct (uploadMediaFile w f true) as [t [up|e|]]; cbn [result snd] in *;
      try discriminate Hb; [|reflexivity].
    destruct (models_generateContent w) as [resp|e']; [|discriminate Hb].
    destruct (text resp) as [[|c r]|]; try discriminate Hb.
    destruct (JSON_parse (c :: r)); discriminate Hb. }
  assert (F : exists n, fetches (trace (analyzeMeetingMedia w f true)) = S n).
  { destruct (analyze_stops_with_upload w f true) as (_ & B & _).
    rewrite (B Hup). cbn [trace fst].
    pose proof (ingest_blocked_has_fetched w f true Hup) as L.
    destruct (fetches (trace (uploadMediaFile w f true))); [lia|eauto]. }
  destruct F as [n F].
  assert (E : snd (handleFileUpload w (Some f) st) =
    {| App.status := App.UPLOADING; App.analysisResult := JNull;
       App.progressText := msg_processing; App.errorMsg := [] |}).
  { rewrite (media_upload_cases w f st Hmedia). cbv zeta.
    rewrite Hb, (callbacks_of_analysis w f _ Hkey), Hup, F. reflexivity. }
  rewrite E. split; reflexivity.
Qed.

(** X30. Every pick of a file starts from a clean slate: the status, the
    result and the error message left by earlier uploads have no influence
    on what the handler does or on the state it ends in.  Only the progress
    text can carry over, and only for a recording handled without an API
    key, where nothing is ever reported.  Without a file the handler does
    nothing. *)
Theorem each_upload_starts_afresh (w : World) (f : File) (st st' : App.State) :
  handleFileUpload w None st = ([], st)
  /\ (App.progressText st = App.progressText st' ->
      handleFileUpload w (Some f) st = handleFileUpload w (Some f) st')
  /\ (startsWith (lit "image/") (file_type f) = true \/ truthy (API_KEY w) = true ->
      handleFileUpload w (Some f) st = handleFileUpload w (Some f) st').
Proof.
  split; [reflexivity|]. split.
  - intros H. unfold handleFileUpload, App.handleFileUpload. now rewrite H.
  - intros H.
    destruct (startsWith (lit "image/") (file_type f)) eqn:Himg.
    + unfold handleFileUpload, App.handleFileUpload. now rewrite Himg.
    + destruct H as [H|Hkey]; [discriminate H|].
      rewrite !(media_upload_cases w f _ Himg). cbv zeta.
      now rewrite !(callbacks_of_analysis w f _ Hkey).
Qed.

End Shell.

(** ** The further properties at concrete inputs *)

Lemma failed_state_witness :
  result (uploadMediaFile failed_world clip true) = Throw (Error msg_processing_failed)
  /\ result (analyzeMeetingMedia failed_world clip true)
     = Throw (Error msg_processing_failed)
  /\ generate_requests (trace (analyzeMeetingMedia failed_world clip true)) = [].
Proof.
  destruct (failed_state_is_fatal failed_world clip true
              (direct (handle "files/a" "https://g/files/a" (Some (lit "PROCESSING"))))
              eq_refl eq_refl eq_refl eq_refl) as [[_ H] A].
  assert (E : result (uploadMediaFile failed_world clip true)
              = Throw (Error msg_processing_failed)).
  { apply H. eexists. split; reflexivity. }
  split; [exact E|]. exact (A E).
Defined.

Lemma missing_uri_witness :
  result (uploadMediaFile uriless_world clip true) = Throw (Error msg_missing_uri).
Proof.
  apply (missing_uri_after_polling uriless_world clip true
           (direct (handle "files/a" "https://g/files/a" (Some (lit "PROCESSING"))))
           eq_refl eq_refl eq_refl eq_refl).
  exists (unwrap uriless), uriless. repeat split. now left.
Defined.

Lemma upload_rejection_witness :
  uploadMediaFile rejecting_world clip false
  = ([FilesUpload (lit "standup.mp4") (lit "video/mp4");
      ConsoleError (lit "Media upload error:")],
     Throw (Rejection (lit "413")))
  /\ fetches (trace (uploadMediaFile rejecting_world clip false)) = 0
  /\ sleeps (trace (uploadMediaFile rejecting_world clip false)) = []
  /\ analyzeMeetingMedia rejecting_world clip false
     = ([FilesUpload (lit "standup.mp4") (lit "video/mp4");
         ConsoleError (lit "Media upload error:")],
        Throw (Rejection (lit "413"))).
Proof.
  apply (upload_rejection_propagates rejecting_world clip false (Rejection (lit "413")));
    reflexivity.
Defined.

Lemma polling_has_no_cap_witness :
  result (uploadMediaFile stuck_world clip false) = Blocked
  /\ fetches (trace (uploadMediaFile stuck_world clip false)) = 4
  /\ sleeps (trace (uploadMediaFile stuck_world clip false)) = repeat 2000%Z 4.
Proof.
  apply (polling_has_no_cap stuck_world clip false
           (direct (handle "files/a" "https://g/files/a" (Some (lit "PROCESSING"))))
           eq_refl eq_refl eq_refl eq_refl eq_refl).
  repeat constructor.
Defined.

Lemma wrapping_witness :
  result (uploadMediaFile slow_world clip true)
    = result (uploadMediaFile wrapped_world clip true)
  /\ without_logs (trace (uploadMediaFile slow_world clip true))
     = without_logs (trace (uploadMediaFile wrapped_world clip true))
  /\ uploadMediaFile slow_world clip true = uploadMediaFile wrapped_world clip true.
Proof.
  destruct (wrapping_is_irrelevant slow_world wrapped_world clip true
              eq_refl eq_refl eq_refl) as (R & T & E).
  split; [exact R | split; [exact T |]].
  apply E. intros r H. injection H as <-. split; reflexivity.
Defined.

Lemma later_answers_witness :
  uploadMediaFile (with_gets slow_world (files_get slow_world ++ files_get stuck_world))
                  clip true
  = uploadMediaFile slow_world clip true.
Proof.
  apply (later_answers_are_not_requested slow_world clip true (files_get stuck_world)).
  discriminate.
Defined.

Lemma settled_upload_witness :
  exists u,
    uri (unwrap untyped) = Some u
    /\ uploadMediaFile untyped_world clip false
       = (upload_prefix clip false,
          Return {| uploaded_uri := u;
                    uploaded_mimeType := or_else (mimeType (unwrap untyped)) (file_type clip) |})
    /\ sleeps (trace (uploadMediaFile untyped_world clip false)) = []
    /\ fetches (trace (uploadMediaFile untyped_world clip false)) = 0.
Proof.
  apply (settled_upload_is_not_polled untyped_world clip false untyped); reflexivity.
Defined.

Lemma returned_mime_type_witness :
  exists r fd,
    files_upload untyped_world = Resolves r
    /\ result (poll (files_get untyped_world) false (unwrap r)) = Return fd
    /\ lit "video/mp4" = or_else (mimeType fd) (file_type clip)
    /\ (truthy (mimeType fd) = false -> lit "video/mp4" = file_type clip)
    /\ (file_type clip <> [] -> lit "video/mp4" <> []).
Proof.
  apply (returned_mime_type untyped_world clip false
           {| uploaded_uri := lit "https://g/files/a";
              uploaded_mimeType := lit "video/mp4" |}).
  reflexivity.
Defined.

Lemma analysis_answer_errors_witness :
  analyzeMeetingMedia overloaded_world clip false
  = (trace (uploadMediaFile overloaded_world clip false)
       ++ analysis_events false
            {| uploaded_uri := lit "https://g/files/a";
               uploaded_mimeType := lit "video/mp4" |},
     Throw (Rejection (lit "429")))
  /\ analyzeMeetingMedia silent_world clip false
     = (trace (uploadMediaFile silent_world clip false)
          ++ analysis_events false
               {| uploaded_uri := lit "https://g/files/a";
                  uploaded_mimeType := lit "video/mp4" |},
        Throw (Error msg_no_response)).
Proof.
  split.
  - apply (analysis_answer_errors overloaded_world clip false
             {| uploaded_uri := lit "https://g/files/a";
                uploaded_mimeType := lit "video/mp4" |} eq_refl).
    reflexivity.
  - apply (analysis_answer_errors silent_world clip false
             {| uploaded_uri := lit "https://g/files/a";
                uploaded_mimeType := lit "video/mp4" |} eq_refl)
      with (resp := {| text := Some []; candidates := None |}); reflexivity.
Defined.

Lemma chat_reply_witness :
  lit "I couldn't generate a response." <> []
  /\ exists answer,
       chat_sendMessage silent_world = Resolves answer
       /\ lit "I couldn't generate a response." = or_else (text answer) msg_no_chat_response
       /\ (truthy (text answer) = true -> Some (lit "I couldn't generate a response.") = text answer)
       /\ (truthy (text answer) = false
           -> lit "I couldn't generate a response." = msg_no_chat_response).
Proof.
  exact (chat_reply_is_never_empty silent_world [] (lit "Who spoke?") (lit "{}")).
Defined.

Lemma context_beyond_limit_witness :
  systemInstruction long_context = systemInstruction (long_context ++ lit "tail")
  /\ chatWithMeetingContext silent_world [] (lit "Who spoke?") long_context
     = chatWithMeetingContext silent_world [] (lit "Who spoke?") (long_context ++ lit "tail").
Proof.
  apply (context_beyond_limit_is_ignored silent_world [] (lit "Who spoke?")
           long_context (long_context ++ lit "tail")).
  unfold long_context. rewrite firstn_app, repeat_length.
  replace (limit - S limit) with 0 by lia. cbn [firstn]. now rewrite app_nil_r.
Defined.

Lemma image_part_witness :
  fileToGenerativePart photo
  = ([ReadAsDataURL (lit "slide.png")],
     Return (inlineDataPart (Some (lit "iVBORw0KGgo=")) (lit "image/png"))).
Proof.
  apply (image_part_is_the_payload photo (lit "data:image/png;base64") (lit "iVBORw0KGgo=")).
  - intros H. vm_compute in H. intuition discriminate.
  - intros H. vm_compute in H. intuition discriminate.
  - reflexivity.
Defined.

Lemma blank_input_witness :
  ChatInterface.handleSend no_key_world (lit "{}") 1000 2000 idle_panel = ([], idle_panel)
  /\ handleKeyDown no_key_world (lit "{}") 1000 2000 (lit "Enter") false idle_panel
     = (true, ([], idle_panel))
  /\ send_disabled idle_panel = true.
Proof.
  apply (blank_input_is_ignored no_key_world (lit "{}") 1000 2000 idle_panel).
  reflexivity.
Defined.

Lemma every_turn_witness :
  exists reply,
    snd (ChatInterface.handleSend overloaded_world (lit "{}") 1000 2000 chatting)
    = after_turn 1000 chatting reply
    /\ ChatInterface.role reply = ChatInterface.model
    /\ ChatInterface.content reply <> []
    /\ (reply = apology 2000
        \/ exists responseText srcs,
             reply = ChatInterface.modelMsg 2000 responseText srcs).
Proof.
  apply (every_turn_adds_question_and_reply overloaded_world (lit "{}") 1000 2000 chatting).
  discriminate.
Defined.

Lemma failed_request_witness :
  ChatInterface.handleSend no_key_world (lit "{}") 1000 2000 chatting
  = ([ConsoleError msg_no_api_key], after_turn 1000 chatting (apology 2000))
  /\ ChatInterface.handleSend overloaded_world (lit "{}") 1000 2000 searching
     = ([GenerateContent (research_request (lit "what is A?"));
         ConsoleError (lit "429")],
        after_turn 1000 searching (apology 2000)).
Proof.
  destruct (failed_request_becomes_an_apology no_key_world (lit "{}") 1000 2000 chatting)
    as (H1 & _ & _); [discriminate|].
  destruct (failed_request_becomes_an_apology overloaded_world (lit "{}") 1000 2000
              searching) as (_ & H2 & _); [discriminate|].
  split; [apply H1; reflexivity|].
  apply (H2 (Rejection (lit "429"))); reflexivity.
Defined.

Lemma context_turn_witness :
  ChatInterface.handleSend (answering (Some (lit "k")) "Alice did.") (lit "{}")
    1000 2000 chatting
  = ([ChatsCreate (lit "gemini-2.5-flash-lite") (systemInstruction (lit "{}"))
        [(lit "model", ChatInterface.content ChatInterface.greeting)];
      SendMessage (lit " Who spoke? ")],
     after_turn 1000 chatting
       {| ChatInterface.id := lit "2001";
          ChatInterface.role := ChatInterface.model;
          ChatInterface.content := lit "Alice did.";
          ChatInterface.sources := None;
          ChatInterface.isThinking := None |}).
Proof.
  apply (context_turn (answering (Some (lit "k")) "Alice did.") (lit "{}") 1000 2000 chatting
           {| text := Some (lit "Alice did."); candidates := None |});
    [discriminate|reflexivity|reflexivity|reflexivity].
Defined.

Lemma search_turn_witness :
  ChatInterface.handleSend grounded_world (lit "{}") 1000 2000 searching
  = ChatInterface.handleSend grounded_world long_context 1000 2000 searching
  /\ exists logged,
       fst (ChatInterface.handleSend grounded_world (lit "{}") 1000 2000 searching)
       = GenerateContent (research_request (lit "what is A?")) :: logged
       /\ generate_requests logged = []
       /\ forall m sys h, ~ In (ChatsCreate m sys h) logged.
Proof.
  destruct (search_turn_ignores_the_context grounded_world (lit "{}") long_context
              1000 2000 searching eq_refl) as [E R].
  split; [exact E|]. apply R; [discriminate|reflexivity].
Defined.

Lemma turn_identifiers_witness :
  ChatInterface.id (userMsg 1000 chatting)
  <> ChatInterface.id (ChatInterface.modelMsg 1000 (lit "Alice did.") [])
  /\ (ChatInterface.id (userMsg 1000 chatting) = ChatInterface.id (apology 1000)
      <-> 1000%N = 1000%N).
Proof.
  apply (turn_identifiers_differ 1000 1000 chatting (lit "Alice did.") []).
  apply N.le_refl.
Defined.

Lemma only_plain_enter_witness :
  handleKeyDown overloaded_world (lit "{}") 1000 2000 (lit "Enter") true chatting
  = (false, ([], chatting))
  /\ handleKeyDown overloaded_world (lit "{}") 1000 2000 (lit "a") false chatting
     = (false, ([], chatting))
  /\ send_disabled chatting = true
  /\ handleKeyDown overloaded_world (lit "{}") 1000 2000 (lit "Enter") false chatting
     = (true, ChatInterface.handleSend overloaded_world (lit "{}") 1000 2000 chatting).
Proof.
  destruct (only_plain_enter_sends overloaded_world (lit "{}") 1000 2000 (lit "Enter")
              true chatting) as (H1 & _ & H3 & _).
  destruct (only_plain_enter_sends overloaded_world (lit "{}") 1000 2000 (lit "a")
              false chatting) as (H2 & H4 & _ & _).
  split; [apply H1; now right|].
  split; [apply H2; left; discriminate|].
  split; [apply H3; reflexivity|exact H4].
Defined.

Lemma image_files_witness :
  let run :=
    App.handleFileUpload (lit "Unexpected token") reason_is_message
      (answering (Some (lit "k")) "A slide.") (Some photo) App.initial in
  App.analysisResult (snd run) = JNull
  /\ App.status (snd run) = App.IDLE
  /\ (forall n m, ~ In (App.Service (FilesUpload n m)) (fst run))
  /\ exists before,
       fst run =
         before ++ [App.Alert (lit "Image Analysis (Gemini 3 Pro): " ++ nl ++ lit "A slide.")].
Proof.
  destruct (image_files_bypass_the_pipeline zero_lexeme (lit "Unexpected token")
              reason_is_message (answering (Some (lit "k")) "A slide.") photo App.initial
              eq_refl) as (H1 & _ & H3 & _ & _ & H5 & _ & H6).
  cbv zeta. auto.
Defined.

Lemma completed_analysis_witness :
  App.render zero_lexeme
    (snd (App.handleFileUpload (lit "Unexpected token") reason_is_message
            undecided_world (Some clip) App.initial))
  = App.Dashboard undecided_payload
  /\ App.render zero_lexeme
       (snd (App.handleFileUpload (lit "Unexpected token") reason_is_message
               null_world (Some clip) App.initial))
     = App.ProgressScreen (lit "Finalizing Analysis...") msg_thinking false.
Proof.
  split.
  - destruct (completed_analysis zero_lexeme (lit "Unexpected token") reason_is_message
                undecided_world clip App.initial undecided_payload eq_refl)
      as (_ & _ & H).
    + vm_compute. reflexivity.
    + apply (H _ eq_refl).
  - destruct (completed_analysis zero_lexeme (lit "Unexpected token") reason_is_message
                null_world clip App.initial JNull eq_refl) as (_ & H & _).
    + vm_compute. reflexivity.
    + exact H.
Defined.

Lemma failed_analysis_witness :
  App.render zero_lexeme
    (snd (App.handleFileUpload (lit "Unexpected token") reason_is_message
            no_key_world (Some clip) App.initial))
  = App.UploadScreen (Some (lit "API Key not found")).
Proof.
  destruct (failed_analysis_shows_the_error zero_lexeme (lit "Unexpected token")
              reason_is_message no_key_world clip App.initial (Error msg_no_api_key)
              eq_refl eq_refl) as (_ & _ & _ & _ & _ & H).
  apply (H msg_no_api_key eq_refl). discriminate.
Defined.

Lemma pending_analysis_witness :
  snd (App.handleFileUpload (lit "Unexpected token") reason_is_message
         stuck_world (Some clip) App.initial)
  = {| App.status := App.UPLOADING; App.analysisResult := JNull;
       App.progressText := msg_processing; App.errorMsg := [] |}
  /\ App.render zero_lexeme
       (snd (App.handleFileUpload (lit "Unexpected token") reason_is_message
               stuck_world (Some clip) App.initial))
     = App.ProgressScreen (lit "Uploading Media...") msg_processing false.
Proof.
  apply (pending_analysis_view zero_lexeme (lit "Unexpected token") reason_is_message
           stuck_world clip App.initial); reflexivity.
Defined.

Lemma each_upload_witness :
  App.handleFileUpload (lit "Unexpected token") reason_is_message undecided_world
    (Some clip) App.initial
  = App.handleFileUpload (lit "Unexpected token") reason_is_message undecided_world
      (Some clip)
      {| App.status := App.ERROR; App.analysisResult := partial_payload;
         App.progressText := lit "Analyzing image..."; App.errorMsg := lit "old" |}.
Proof.
  destruct (each_upload_starts_afresh (lit "Unexpected token") reason_is_message
              undecided_world clip App.initial
              {| App.status := App.ERROR; App.analysisResult := partial_payload;
                 App.progressText := lit "Analyzing image..."; App.errorMsg := lit "old" |})
    as (_ & _ & H).
  apply H. right. reflexivity.
Defined.
